(** * perclearn.utils: noise backgrounds, range scaling and circular compositing

    A shallow embedding of [src/perclearn/utils.py].  NumPy arrays are
    modelled as views (base buffer, offset, shape) over a store of flat
    row-major buffers, so that in-place updates and aliasing are explicit.
    Python exceptions are an error result that keeps the store reached so
    far.  The code is written once over an abstract scalar interface and is
    instantiated at IEEE binary64 (the [spec_float] of the standard library,
    which is what NumPy's float64 computes). *)

From Stdlib Require Import ZArith Lia List String Bool.
From Stdlib Require Import Floats.SpecFloat Floats.FloatOps.
From stdpp Require Import base option list gmap.
Import ListNotations.

Set Default Proof Using "Type".
Local Open Scope nat_scope.

(** ** Python values: exceptions, results, optional arguments *)

Inductive exn : Type :=
| ValueError   (* shape mismatch, empty reduction, bad reshape, bad range *)
| TypeError    (* unexpected keyword argument *)
| MaskError    (* np.ma: mask and data not compatible *)
| IndexError   (* list index out of range *)
| InvalidRef.  (* a view that does not lie inside its buffer *)

Inductive res (X : Type) : Type :=
| Ok (x : X)
| Raise (e : exn).
Arguments Ok {X} x.
Arguments Raise {X} e.

(** An argument of a Python call: left out (the declared default applies)
    or passed.  A parameter that accepts [None] has an [option] type. *)
Inductive arg (T : Type) : Type :=
| Omitted
| Passed (v : T).
Arguments Omitted {T}.
Arguments Passed {T} v.

Definition with_default {T} (d : T) (a : arg T) : T :=
  match a with Omitted => d | Passed v => v end.

(** ** Scalars *)

Class Scalar (A : Type) : Type := {
  of_Z : Z -> A;
  add : A -> A -> A;
  sub : A -> A -> A;
  neg : A -> A;
  mul : A -> A -> A;
  div : A -> A -> A;
  leb : A -> A -> bool;          (* x <= y *)
  minimum : A -> A -> A;         (* the reduction step of np.min *)
  maximum : A -> A -> A          (* the reduction step of np.max *)
}.

Class Sqrt (A : Type) : Type := sqrt : A -> A.

(** IEEE 754 binary64. *)
Module F64.
Definition t : Type := spec_float.
Definition of_Z (z : Z) : t := binary_normalize prec emax z 0 false.
Definition add : t -> t -> t := SFadd prec emax.
Definition sub : t -> t -> t := SFsub prec emax.
Definition mul : t -> t -> t := SFmul prec emax.
Definition div : t -> t -> t := SFdiv prec emax.
Definition sqrt : t -> t := SFsqrt prec emax.
Definition isnan (x : t) : bool :=
  match x with S754_nan => true | _ => false end.
(* NumPy's float loops: min is (isnan a || a < b) ? a : b, and likewise
   max; both propagate NaN. *)
Definition minimum (a b : t) : t :=
  if isnan a then a else if SFltb a b then a else b.
Definition maximum (a b : t) : t :=
  if isnan a then a else if SFltb b a then a else b.
End F64.

#[export] Instance f64_scalar : Scalar F64.t := {|
  of_Z := F64.of_Z;
  add := F64.add;
  sub := F64.sub;
  neg := SFopp;
  mul := F64.mul;
  div := F64.div;
  leb := SFleb;
  minimum := F64.minimum;
  maximum := F64.maximum
|}.

#[export] Instance f64_sqrt : Sqrt F64.t := F64.sqrt.

(** ** Array values: a shape and the entries in row-major order *)

Record matrix (T : Type) : Type := Matrix {
  mshape : nat * nat;
  mdata : list T
}.
Arguments Matrix {T} mshape mdata.
Arguments mshape {T} m.
Arguments mdata {T} m.

Definition msize {T} (m : matrix T) : nat := fst (mshape m) * snd (mshape m).

Definition wf_matrix {T} (m : matrix T) : Prop := length (mdata m) = msize m.

(** [tabulate r c f] is the r x c array whose entry (i, j) is [f i j]. *)
Definition tabulate {T} (r c : nat) (f : nat -> nat -> T) : list T :=
  flat_map (fun i => map (f i) (seq 0 c)) (seq 0 r).

Definition mmap {T U} (f : T -> U) (m : matrix T) : matrix U :=
  Matrix (mshape m) (map f (mdata m)).

(** Entry (i, j) of [m] seen through NumPy broadcasting: an axis of
    length 1 is read at index 0 whatever the index asked for. *)
Definition bget {T} (d : T) (m : matrix T) (i j : nat) : T :=
  let '(r, c) := mshape m in
  nth ((if r =? 1 then 0 else i) * c + (if c =? 1 then 0 else j)) (mdata m) d.

Definition broadcast_dim (a b : nat) : option nat :=
  if a =? b then Some a
  else if a =? 1 then Some b
  else if b =? 1 then Some a
  else None.

Definition broadcast_shape (s1 s2 : nat * nat) : option (nat * nat) :=
  match broadcast_dim (fst s1) (fst s2), broadcast_dim (snd s1) (snd s2) with
  | Some r, Some c => Some (r, c)
  | _, _ => None
  end.

(** An elementwise binary operation on two arrays; operands that could not
    be broadcast together raise ValueError. *)
Definition broadcast2 {T U V} (dt : T) (du : U) (f : T -> U -> V)
    (a : matrix T) (b : matrix U) : res (matrix V) :=
  match broadcast_shape (mshape a) (mshape b) with
  | Some (r, c) =>
      Ok (Matrix (r, c) (tabulate r c (fun i j => f (bget dt a i j) (bget du b i j))))
  | None => Raise ValueError
  end.

(** np.reshape of a contiguous array: same entries, new shape. *)
Definition reshape {T} (m : matrix T) (s : nat * nat) : res (matrix T) :=
  if length (mdata m) =? fst s * snd s then Ok (Matrix s (mdata m))
  else Raise ValueError.

(** [.T] *)
Definition transpose {T} (d : T) (m : matrix T) : matrix T :=
  let '(r, c) := mshape m in
  Matrix (c, r) (tabulate c r (fun i j => nth (j * c + i) (mdata m) d)).

(** numpy.matlib.repmat of a one-dimensional array [v], which is taken as
    a single row: m copies down, n copies across. *)
Definition repmat {T} (v : list T) (m n : nat) : matrix T :=
  Matrix (m, length v * n) (concat (replicate m (concat (replicate n v)))).

(** range(a, b) *)
Definition py_range (a b : Z) : list Z :=
  map (fun k => (a + Z.of_nat k)%Z) (seq 0 (Z.to_nat (b - a))).

(** One axis of a basic slice [start:stop] over an axis of length n:
    negative bounds count from the end, and both are clipped.  The result
    is the first index and the number of indices. *)
Definition slice_norm (n : nat) (k : Z) : nat :=
  if (k <? 0)%Z then Z.to_nat (Z.max (k + Z.of_nat n) 0)
  else Z.to_nat (Z.min k (Z.of_nat n)).

Definition slice_axis (n : nat) (start stop : Z) : nat * nat :=
  let s := slice_norm n start in
  let e := slice_norm n stop in
  (s, e - s).

(** ** Masked arrays (numpy.ma) *)

Record masked (T : Type) : Type := Masked {
  ma_data : matrix T;     (* [.data]: the underlying entries, masked or not *)
  ma_mask : list bool     (* true = masked out *)
}.
Arguments Masked {T} ma_data ma_mask.
Arguments ma_data {T} m.
Arguments ma_mask {T} m.

(** np.ma.array(data, mask=mask): a mask of another shape is resized when
    it has one entry, reshaped when it has as many entries as the data,
    and refused otherwise. *)
Definition ma_array {T} (data : matrix T) (mask : matrix bool) : res (masked T) :=
  if decide (mshape mask = mshape data) then Ok (Masked data (mdata mask))
  else if msize mask =? 1 then
    Ok (Masked data (replicate (msize data) (nth 0 (mdata mask) false)))
  else if msize mask =? msize data then Ok (Masked data (mdata mask))
  else Raise MaskError.

(** [a[idx] = v] for a boolean index array of a's shape: the entries
    selected by [idx] are overwritten and unmasked. *)
Definition ma_setitem_bool {T} (a : masked T) (idx : list bool) (v : T) : masked T :=
  Masked
    (Matrix (mshape (ma_data a))
       (zip_with (fun (b : bool) x => if b then v else x) idx (mdata (ma_data a))))
    (zip_with (fun (b mk : bool) => if b then false else mk) idx (ma_mask a)).

(** ** The store *)

Record ndarray : Type := NdArray {
  base : positive;       (* the buffer this array is a view of *)
  offset : nat;          (* where the view starts in the buffer *)
  shape : nat * nat
}.

Record world (A : Type) : Type := World {
  heap : gmap positive (list A);
  rng : nat              (* how many draws the global random source has made *)
}.
Arguments World {A} heap rng.
Arguments heap {A} w.
Arguments rng {A} w.

Definition M (A X : Type) : Type := world A -> res X * world A.

Definition ret {A X} (x : X) : M A X := fun w => (Ok x, w).

Definition bind {A X Y} (m : M A X) (k : X -> M A Y) : M A Y :=
  fun w =>
    match m w with
    | (Ok x, w') => k x w'
    | (Raise e, w') => (Raise e, w')
    end.

Definition raise {A X} (e : exn) : M A X := fun w => (Raise e, w).

Definition lift {A X} (r : res X) : M A X := fun w => (r, w).

Declare Scope monad_scope.
Delimit Scope monad_scope with monad.
Notation "'let*' x := c1 'in' c2" := (bind c1 (fun x => c2))
  (at level 10, x pattern, c1 at level 100, c2 at level 200) : monad_scope.
Notation "'run' c1 'in' c2" := (bind c1 (fun _ => c2))
  (at level 10, c1 at level 100, c2 at level 200) : monad_scope.
Local Open Scope monad_scope.

Fixpoint for_each {A X} (l : list X) (body : X -> M A unit) : M A unit :=
  match l with
  | [] => ret tt
  | x :: l' => run body x in for_each l' body
  end.

(** A rectangular region of a two-dimensional array: first row, number of
    rows, first column, number of columns. *)
Record window : Type := Window {
  w_r0 : nat; w_nr : nat; w_c0 : nat; w_nc : nat
}.

Definition slice2 (s : nat * nat) (r_start r_stop c_start c_stop : Z) : window :=
  let '(r0, nr) := slice_axis (fst s) r_start r_stop in
  let '(c0, nc) := slice_axis (snd s) c_start c_stop in
  Window r0 nr c0 nc.

(** Is the flat index [k] of an array with [cols] columns inside [win]? *)
Definition in_window (win : window) (cols k : nat) : bool :=
  let i := k / cols in
  let j := k mod cols in
  (w_r0 win <=? i) && (i <? w_r0 win + w_nr win) &&
  (w_c0 win <=? j) && (j <? w_c0 win + w_nc win).

(** Can a value of shape [s] be assigned to a region of shape [t]? *)
Definition assignable (s t : nat * nat) : bool :=
  ((fst s =? fst t) || (fst s =? 1)) && ((snd s =? snd t) || (snd s =? 1)).

Section Store.
Context {A : Type} {SA : Scalar A}.

Definition alloc (buf : list A) : M A positive :=
  fun w =>
    let l := fresh (dom (heap w)) in
    (Ok l, World (<[l := buf]> (heap w)) (rng w)).

Definition load (l : positive) : M A (list A) :=
  fun w =>
    match heap w !! l with
    | Some buf => (Ok buf, w)
    | None => (Raise InvalidRef, w)
    end.

Definition store (l : positive) (buf : list A) : M A unit :=
  fun w => (Ok tt, World (<[l := buf]> (heap w)) (rng w)).

(** A fresh array holding the entries of [m]. *)
Definition new_array (m : matrix A) : M A ndarray :=
  let* l := alloc (mdata m) in
  ret (NdArray l 0 (mshape m)).

(** The entries an array currently has. *)
Definition read_view (a : ndarray) : M A (matrix A) :=
  let* buf := load (base a) in
  let n := fst (shape a) * snd (shape a) in
  if offset a + n <=? length buf
  then ret (Matrix (shape a) (take n (drop (offset a) buf)))
  else raise InvalidRef.

(** np.ndarray.flatten: a one-dimensional copy, in a buffer of its own. *)
Definition flatten (a : ndarray) : M A positive :=
  let* m := read_view a in
  alloc (mdata m).

(** np.min and np.max of a one-dimensional array; an empty array has no
    minimum and raises ValueError. *)
Definition reduce (f : A -> A -> A) (l : list A) : res A :=
  match l with
  | [] => Raise ValueError
  | x :: xs => Ok (fold_left f xs x)
  end.

Definition np_min (l : positive) : M A A :=
  let* buf := load l in lift (reduce minimum buf).

Definition np_max (l : positive) : M A A :=
  let* buf := load l in lift (reduce maximum buf).

(** [data += x] and [data /= x]: in place, on the buffer of [data]. *)
Definition iadd (l : positive) (x : A) : M A unit :=
  let* buf := load l in store l (map (fun v => add v x) buf).

Definition idiv (l : positive) (x : A) : M A unit :=
  let* buf := load l in store l (map (fun v => div v x) buf).

(** np.reshape of a one-dimensional array: a view of the same buffer. *)
Definition np_reshape (l : positive) (s : nat * nat) : M A ndarray :=
  let* buf := load l in
  if length buf =? fst s * snd s then ret (NdArray l 0 s)
  else raise ValueError.

(** The entries of [a] in the region [win]. *)
Definition read_window (a : ndarray) (win : window) : M A (matrix A) :=
  let* m := read_view a in
  let c := snd (shape a) in
  ret (Matrix (w_nr win, w_nc win)
         (tabulate (w_nr win) (w_nc win)
            (fun i j => nth ((w_r0 win + i) * c + (w_c0 win + j)) (mdata m) (of_Z 0)))).

(** [a[win] = v]: in place, on the buffer of [a]; the value is broadcast
    to the region, and a value that cannot be raises ValueError.  A
    masked value is assigned by its underlying entries. *)
Definition write_window (a : ndarray) (win : window) (v : matrix A) : M A unit :=
  let* buf := load (base a) in
  if assignable (mshape v) (w_nr win, w_nc win) then
    let c := snd (shape a) in
    store (base a)
      (imap (fun k old =>
               if (offset a <=? k) && in_window win c (k - offset a)
               then bget (of_Z 0) v ((k - offset a) / c - w_r0 win)
                                    ((k - offset a) mod c - w_c0 win)
               else old) buf)
  else raise ValueError.

(** *** scale_2D *)

Definition scale_2D (data : ndarray) (scale_range : arg (A * A)) : M A ndarray :=
  let scale_range := with_default (of_Z 0, of_Z 255) scale_range in
  let '(w, h) := shape data in
  let* data := flatten data in
  let* mn := np_min data in
  run iadd data (neg mn) in
  let* mx := np_max data in
  run idiv data (div mx (sub (snd scale_range) (fst scale_range))) in
  run iadd data (fst scale_range) in
  np_reshape data (w, h).

(** *** create_composition *)

(** [background_fade + circle_image], evaluated by the masked array's
    reflected addition: the sum where [circle_image] is not masked, the
    left operand where it is; the result keeps the mask. *)
Definition ma_radd (a : matrix A) (b : masked A) : res (masked A) :=
  match
    broadcast2 (of_Z 0) (of_Z 0, false)
      (fun x (ym : A * bool) => (if snd ym then x else add x (fst ym), snd ym))
      a (Matrix (mshape (ma_data b)) (zip (mdata (ma_data b)) (ma_mask b)))
  with
  | Ok r => Ok (Masked (mmap fst r) (map snd (mdata r)))
  | Raise e => Raise e
  end.

Definition default_center (w h : nat) : Z * Z :=
  ((Z.of_nat w / 2)%Z, (Z.of_nat h / 2)%Z).

Definition default_radius (w h : nat) (center : Z * Z) : A :=
  of_Z (Z.min (Z.min (Z.min (fst center) (snd center))
                 (Z.of_nat w - fst center))
          (Z.of_nat h - snd center)).

Context {SQ : Sqrt A}.

Definition dist_from_center (w h : nat) (center : Z * Z) : matrix A :=
  Matrix (h, w)
    (tabulate h w (fun y x =>
       sqrt (of_Z ((Z.of_nat x - fst center) ^ 2 + (Z.of_nat y - snd center) ^ 2)))).

Definition create_composition (input_image background_image : ndarray)
    (x_offset y_offset : arg Z)
    (center : arg (option (Z * Z))) (radius : arg (option A)) : M A ndarray :=
  let x_offset := with_default 0%Z x_offset in
  let y_offset := with_default 0%Z y_offset in
  let center := with_default None center in
  let radius := with_default (Some (of_Z 0)) radius in
  let '(w, h) := shape input_image in
  let center := match center with None => default_center w h | Some c => c end in
  let radius := match radius with None => default_radius w h center | Some r => r end in
  let dist := dist_from_center w h center in
  let mask := mmap (fun d => leb d radius) dist in
  let* image := read_view input_image in
  let* circle_image := lift (ma_array image (mmap negb mask)) in
  let* out_masked := lift (ma_array image mask) in
  let out_image := ma_data out_masked in
  let* out_mask := lift (ma_array dist mask) in
  let out_mask_full :=
    ma_setitem_bool out_mask
      (map (fun d => leb d radius) (mdata (ma_data out_mask))) radius in
  let* full := new_array (ma_data out_mask_full) in
  let* rescaled := scale_2D full (Passed (of_Z 0, of_Z 1)) in
  let* dist_from_center_rescaled := read_view rescaled in
  let win := slice2 (shape background_image)
               y_offset (y_offset + Z.of_nat w) x_offset (x_offset + Z.of_nat h) in
  let* background_offset := read_window background_image win in
  let* faded := lift (broadcast2 (of_Z 0) (of_Z 0) mul background_offset dist_from_center_rescaled) in
  let* background_fade := lift (broadcast2 (of_Z 0) (of_Z 0) add faded out_image) in
  let* new_input_image := lift (ma_radd background_fade circle_image) in
  run write_window background_image win (ma_data new_input_image) in
  ret background_image.

End Store.

(** ** External collaborators

    The Fourier transform, the elementary functions, the image rotation of
    scikit-image and the process-wide random source are not part of the
    repository; they are taken as they come. *)
Class External (A : Type) : Type := {
  np_power : A -> A -> A;
  np_cos : A -> A;
  np_sin : A -> A;
  np_pi : A;
  np_isinf : A -> bool;
  (* np.fft.ifft2 on complex entries (real part, imaginary part) *)
  fft_ifft2 : nat * nat -> list (A * A) -> list (A * A);
  (* skimage.transform.rotate(image, angle): same shape as the image *)
  skimage_rotate : nat * nat -> list A -> Z -> list A;
  (* the k-th draw of the random source, as a sample of [0, 1) ... *)
  random_sample : nat -> A;
  (* ... and as raw bits for integer draws *)
  random_bits : nat -> nat
}.

(** Binding the keyword arguments of a call to the parameters that the
    positional arguments left unbound: a keyword that names none of them
    raises TypeError, before the body of the callee runs. *)
Fixpoint bind_keywords {V} (params : list string) (kwargs : list (string * V))
    : res (list (string * V)) :=
  match kwargs with
  | [] => Ok []
  | (k, v) :: rest =>
      if bool_decide (k ∈ params) then
        match bind_keywords params rest with
        | Ok bound => Ok ((k, v) :: bound)
        | Raise e => Raise e
        end
      else Raise TypeError
  end.

Fixpoint keyword {V} (name : string) (bound : list (string * V)) : arg V :=
  match bound with
  | [] => Omitted
  | (k, v) :: rest => if String.eqb k name then Passed v else keyword name rest
  end.

Section Dataset.
Context {A : Type} {SA : Scalar A} {SQ : Sqrt A} {EX : External A}.

(** np.random.random(shape) *)
Definition np_random_random (s : nat * nat) : M A (matrix A) :=
  fun w =>
    let n := fst s * snd s in
    (Ok (Matrix s (map random_sample (seq (rng w) n))),
     World (heap w) (rng w + n)).

(** np.random.randint(low, high): an integer of [low, high) *)
Definition np_random_randint (low high : Z) : M A Z :=
  fun w =>
    if (low <? high)%Z then
      (Ok (low + Z.of_nat (random_bits (rng w)) mod (high - low))%Z,
       World (heap w) (S (rng w)))
    else (Raise ValueError, w).

(** np.fft.ifft2; an axis without points is refused. *)
Definition np_fft_ifft2 (m : matrix (A * A)) : res (matrix (A * A)) :=
  if (fst (mshape m) =? 0) || (snd (mshape m) =? 0) then Raise ValueError
  else Ok (Matrix (mshape m) (fft_ifft2 (mshape m) (mdata m))).

(** *** create_2D_noise *)

(** The frequencies of one axis of length [d]: 0 .. floor(d/2), then
    -(ceil(d/2) - 1) .. -1, each divided by [d]. *)
Definition frequencies (d : nat) : list A :=
  let list_1 := py_range 0 (Z.of_nat (d / 2) + 1) in
  let list_2 := py_range (- (Z.of_nat ((d + 1) / 2) - 1)) 0 in
  map (fun k => div (of_Z k) (of_Z (Z.of_nat d))) (list_1 ++ list_2).

Definition create_2D_noise (dim_array : arg (nat * nat)) (beta : arg A) : M A ndarray :=
  let dim_array := with_default (56, 56) dim_array in
  let beta := with_default (of_Z (-1)) beta in
  let u := frequencies (fst dim_array) in
  let* u := lift (reshape (repmat u 1 (snd dim_array)) dim_array) in
  let u := transpose (of_Z 0) u in
  let v := frequencies (snd dim_array) in
  let* v := lift (reshape (repmat v (fst dim_array) 1) dim_array) in
  let* f2 := lift (broadcast2 (of_Z 0) (of_Z 0) add
                     (mmap (fun x => np_power x (of_Z 2)) u)
                     (mmap (fun x => np_power x (of_Z 2)) v)) in
  let S_f := mmap (fun x => np_power x (div beta (of_Z 2))) f2 in
  let S_f := mmap (fun x => if np_isinf x then of_Z 0 else x) S_f in
  let* phi := np_random_random dim_array in
  let phase :=
    mmap (fun p => let t := mul (mul (of_Z 2) np_pi) p in (np_cos t, np_sin t)) phi in
  let* spectrum :=
    lift (broadcast2 (of_Z 0) (of_Z 0, of_Z 0)
            (fun s (z : A * A) => (mul s (fst z), mul s (snd z)))
            (mmap (fun x => np_power x (div (of_Z 1) (of_Z 2))) S_f) phase) in
  let* x := lift (np_fft_ifft2 spectrum) in
  new_array (mmap fst x).

(** *** rotate_image *)

(** [skimage.transform.rotate(image, angle=angle)]: the rotation is done by
    [warp], which refuses an image without entries with ValueError
    ("Cannot warp empty image with dimensions"); otherwise the result has
    the shape of the image. *)
Definition skimage_transform_rotate (img : matrix A) (angle : Z) : res (matrix A) :=
  if (fst (mshape img) =? 0) || (snd (mshape img) =? 0)
  then Raise ValueError
  else Ok (Matrix (mshape img) (skimage_rotate (mshape img) (mdata img) angle)).

Definition rotate_image (image : ndarray) (angle : arg (option Z)) : M A ndarray :=
  let angle := with_default None angle in
  let* angle := match angle with
                | None => np_random_randint 0 360
                | Some a => ret a
                end in
  let* img := read_view image in
  let* rotated := lift (skimage_transform_rotate img angle) in
  new_array rotated.

(** A call [rotate_image(image, **kwargs)]: [image] is bound by position,
    which leaves the parameter [angle] for the keywords. *)
Definition call_rotate_image (image : ndarray) (kwargs : list (string * option Z))
    : M A ndarray :=
  let* bound := lift (bind_keywords ["angle"%string] kwargs) in
  rotate_image image (keyword "angle" bound).

(** *** create_new_dataset *)

(** [np.reshape(dataset[i,:], s)]: a view of row [i] of [dataset]. *)
Definition reshape_row (dataset : ndarray) (i : nat) (s : nat * nat) : M A ndarray :=
  let n := snd (shape dataset) in
  if n =? fst s * snd s
  then ret (NdArray (base dataset) (offset dataset + i * n) s)
  else raise ValueError.

(** [new_dataset[i,:] = flat] for a one-dimensional [flat]. *)
Definition setitem_row (a : ndarray) (i : nat) (flat : positive) : M A unit :=
  let* buf := load flat in
  write_window a (Window i 1 0 (snd (shape a))) (Matrix (1, length buf) buf).

Definition np_zeros (s : nat * nat) : M A ndarray :=
  new_array (Matrix s (replicate (fst s * snd s) (of_Z 0))).

(** [l[i]] on a Python list. *)
Definition getitem {X} (l : list X) (i : Z) : res X :=
  let k := if (i <? 0)%Z then (i + Z.of_nat (length l))%Z else i in
  if (k <? 0)%Z then Raise IndexError
  else match l !! Z.to_nat k with
       | Some x => Ok x
       | None => Raise IndexError
       end.

Definition create_new_dataset (dataset : ndarray)
    (offsets : arg (list (Z * Z))) (rotate : arg bool) (degree : arg (option Z))
    : M A ndarray :=
  let offsets := with_default [(0, 0)%Z] offsets in
  let rotate := with_default false rotate in
  let degree := with_default None degree in
  let '(m, n) := shape dataset in
  let im_x := Nat.sqrt n in
  let num_offsets := length offsets in
  let* new_dataset := np_zeros (m, n * 4) in
  run for_each (seq 0 m) (fun i =>
    let* image := reshape_row dataset i (im_x, im_x) in
    let* image := (if rotate
                   then call_rotate_image image [("rot"%string, degree)]
                   else ret image) in
    let* noise := create_2D_noise Omitted Omitted in
    let* noise_bg := scale_2D noise Omitted in
    let* rand_offset := np_random_randint 0 (Z.of_nat num_offsets) in
    let* offset := lift (getitem offsets rand_offset) in
    let* result := create_composition image noise_bg
                     (Passed (fst offset)) (Passed (snd offset))
                     (Passed None) (Passed None) in
    let* flat := flatten result in
    setitem_row new_dataset i flat) in
  ret new_dataset.

End Dataset.

(** ** The call site of the compositor, as the specification words it *)

Section SpecWords.
Context {A : Type} {SA : Scalar A} {SQ : Sqrt A} {EX : External A}.

(** create_new_dataset as the specification words its call of the
    compositor: the radius is the minimum distance from the center of the
    image to one of its edges, passed as such. *)
Definition create_new_dataset_computed_radius (dataset : ndarray)
    (offsets : arg (list (Z * Z))) (rotate : arg bool) (degree : arg (option Z))
    : M A ndarray :=
  let offsets := with_default [(0, 0)%Z] offsets in
  let rotate := with_default false rotate in
  let degree := with_default None degree in
  let '(m, n) := shape dataset in
  let im_x := Nat.sqrt n in
  let num_offsets := length offsets in
  let* new_dataset := np_zeros (m, n * 4) in
  run for_each (seq 0 m) (fun i =>
    let* image := reshape_row dataset i (im_x, im_x) in
    let* image := (if rotate
                   then call_rotate_image image [("rot"%string, degree)]
                   else ret image) in
    let* noise := create_2D_noise Omitted Omitted in
    let* noise_bg := scale_2D noise Omitted in
    let* rand_offset := np_random_randint 0 (Z.of_nat num_offsets) in
    let* offset := lift (getitem offsets rand_offset) in
    let '(w, h) := shape image in
    let* result := create_composition image noise_bg
                     (Passed (fst offset)) (Passed (snd offset))
                     (Passed None)
                     (Passed (Some (default_radius w h (default_center w h)))) in
    let* flat := flatten result in
    setitem_row new_dataset i flat) in
  ret new_dataset.
End SpecWords.

(** ** Instances used for evaluation *)

Definition empty_world {A} : world A := World ∅ 0.

(** The store after allocating the given arrays in turn, and their handles. *)
Fixpoint setup {A} (ms : list (matrix A)) (w : world A) : list ndarray * world A :=
  match ms with
  | [] => ([], w)
  | m :: ms' =>
      let l := fresh (dom (heap w)) in
      let '(hs, w') := setup ms' (World (<[l := mdata m]> (heap w)) (rng w)) in
      (NdArray l 0 (mshape m) :: hs, w')
  end.

(** Entry (i, j) of an array in a store. *)
Definition entry {A} (w : world A) (a : ndarray) (i j : nat) : option A :=
  match heap w !! base a with
  | Some buf => buf !! (offset a + i * snd (shape a) + j)
  | None => None
  end.

(** A 3 x 3 image with the entries 1 .. 9 and a 4 x 4 background of tens,
    both binary64, and the store that holds them. *)
Definition image_3x3 : matrix F64.t :=
  Matrix (3, 3) (map F64.of_Z [1; 2; 3; 4; 5; 6; 7; 8; 9]%Z).

Definition background_4x4 : matrix F64.t :=
  Matrix (4, 4) (replicate 16 (F64.of_Z 10)).

Definition example_world : world F64.t :=
  snd (setup [image_3x3; background_4x4] empty_world).

Definition example_image : ndarray := NdArray 1 0 (3, 3).
Definition example_background : ndarray := NdArray 2 0 (4, 4).

(** A constant 2 x 2 binary64 field. *)
Definition constant_2x2 : world F64.t :=
  World (<[1%positive := replicate 4 (F64.of_Z 7)]> ∅) 0.

(** An arbitrary choice of collaborators over binary64.  What is proved
    about create_2D_noise and create_new_dataset holds for every choice;
    this one only serves to instantiate those statements. *)
Definition sample_external : External F64.t := {|
  np_power := fun x _ => x;
  np_cos := fun x => x;
  np_sin := fun x => x;
  np_pi := F64.of_Z 3;
  np_isinf := fun x => match x with S754_infinity _ => true | _ => false end;
  fft_ifft2 := fun _ l => l;
  skimage_rotate := fun _ l _ => l;
  random_sample := fun _ => F64.of_Z 0;
  random_bits := fun k => k
|}.

(** A dataset of one 2 x 2 image, flattened. *)
Definition dataset_1x4 : world F64.t :=
  World (<[1%positive := map F64.of_Z [1; 2; 3; 4]%Z]> ∅) 0.

(** A dataset of one 28 x 28 image, flattened. *)
Definition dataset_1x784 : world F64.t :=
  World (<[1%positive := replicate 784 (F64.of_Z 0)]> ∅) 0.

(** A field of binary64 with one entry that is not a number. *)
Definition field_with_nan : world F64.t :=
  World (<[1%positive := [F64.of_Z 1; S754_nan]]> ∅) 0.



(** ** Closed forms, used to state what the code computes *)

Section ClosedForms.
Context {A : Type} {SA : Scalar A}.

(** What scale_2D leaves in its buffer, as a function of the entries it
    was given. *)
Definition scale_values (l : list A) (lo hi : A) : res (list A) :=
  match reduce minimum l with
  | Raise e => Raise e
  | Ok mn =>
      let shifted := map (fun v => add v (neg mn)) l in
      match reduce maximum shifted with
      | Raise e => Raise e
      | Ok mx =>
          Ok (map (fun v => add v lo)
                (map (fun v => div v (div mx (sub hi lo))) shifted))
      end
  end.


(** Does every buffer of [w] still hold in [w'] what it held in [w]? *)
Definition preserved (w w' : world A) : Prop :=
  forall l buf, heap w !! l = Some buf -> heap w' !! l = Some buf.

(** Partial correctness of a computation started in [w]: if it returns,
    the result and the store satisfy [Q]. *)
Definition wp {X} (m : M A X) (Q : X -> world A -> Prop) (w : world A) : Prop :=
  match m w with
  | (Ok x, w') => Q x w'
  | (Raise _, _) => True
  end.

(** From [w] to [w'] nothing was written but entries of the buffer [l0]
    at the indices selected by [sel]; buffers may have been allocated. *)
Definition touches_only (l0 : positive) (sel : nat -> bool) (w w' : world A) : Prop :=
  (forall l buf, l <> l0 -> heap w !! l = Some buf -> heap w' !! l = Some buf) /\
  (forall buf, heap w !! l0 = Some buf ->
     exists buf', heap w' !! l0 = Some buf' /\ length buf' = length buf /\
       forall k, sel k = false -> buf' !! k = buf !! k).

(** [a] is a view that lies inside its buffer in [w], with entries [vals]. *)
Definition holds (w : world A) (a : ndarray) (vals : list A) : Prop :=
  exists buf, heap w !! base a = Some buf /\
    offset a + fst (shape a) * snd (shape a) <= length buf /\
    vals = take (fst (shape a) * snd (shape a)) (drop (offset a) buf).

Context {SQ : Sqrt A}.

(** The distances that create_composition hands to scale_2D: those of the
    disk are raised to [radius]. *)
Definition clamped_distances (w h : nat) (center : Z * Z) (radius : A) : list A :=
  map (fun d => if leb d radius then radius else d)
      (mdata (dist_from_center w h center)).

(** Entry (i, j) of the patch that create_composition writes, from the
    entries [img] of the n x n input image, the entries [bgv] of the
    background (with [C] columns), the window position and the entries
    [fade] of the rescaled distances. *)
Definition composed_entry (img bgv fade : list A) (n C y0 x0 : nat)
    (center : Z * Z) (radius : A) (i j : nat) : A :=
  let p := nth (i * n + j) img (of_Z 0) in
  let b := nth ((y0 + i) * C + (x0 + j)) bgv (of_Z 0) in
  let f := nth (i * n + j) fade (of_Z 0) in
  let d := sqrt (of_Z ((Z.of_nat j - fst center) ^ 2 + (Z.of_nat i - snd center) ^ 2)) in
  if leb d radius then add (add (mul b f) p) p else add (mul b f) p.
End ClosedForms.

Section FrameClosedForm.
Context {A : Type} {SA : Scalar A} {SQ : Sqrt A}.

(** Entry (a, b) of the frame that create_composition leaves in the
    background, whose entries were [bgv] (with [C] columns): the composed
    patch inside the window of the n x n image at (y0, x0), the background
    everywhere else. *)
Definition composed_frame_entry (img bgv fade : list A) (n C y0 x0 : nat)
    (center : Z * Z) (radius : A) (a b : nat) : A :=
  if (y0 <=? a) && (a <? y0 + n) && (x0 <=? b) && (b <? x0 + n)
  then composed_entry img bgv fade n C y0 x0 center radius (a - y0) (b - x0)
  else nth (a * C + b) bgv (of_Z 0).

(** Row [i] of the result of create_new_dataset on rows of 28 x 28 images:
    for one of the offsets and some background of 56 x 56 entries, the
    frame composed from image [i] of the dataset, whose entries are
    [vals]. *)
Definition composed_row (offs : list (Z * Z)) (vals : list A) (i : nat) (buf : list A)
    : Prop :=
  exists o bgv fade,
    In o offs /\ length bgv = 3136 /\
    scale_values
      (clamped_distances 28 28 (default_center 28 28)
         (default_radius 28 28 (default_center 28 28))) (of_Z 0) (of_Z 1) = Ok fade /\
    forall a b, a < 56 -> b < 56 ->
      buf !! (i * 3136 + (a * 56 + b)) =
        Some (composed_frame_entry (take 784 (drop (i * 784) vals)) bgv fade 28 56
                (Z.to_nat (snd o)) (Z.to_nat (fst o))
                (default_center 28 28)
                (default_radius 28 28 (default_center 28 28)) a b).
End FrameClosedForm.

(** * Properties *)

(** ** Lists and array values *)

Lemma length_tabulate_from {T} (f : nat -> nat -> T) c s r :
  length (flat_map (fun i => map (f i) (seq 0 c)) (seq s r)) = r * c.
Proof.
  revert s; induction r as [|r IH]; intros s; simpl; [reflexivity|].
  rewrite length_app, length_map, length_seq, IH. reflexivity.
Qed.

Lemma length_tabulate {T} (f : nat -> nat -> T) r c :
  length (tabulate r c f) = r * c.
Proof. apply length_tabulate_from. Qed.

Lemma nth_tabulate_from {T} (f : nat -> nat -> T) c d s r i j :
  i < r -> j < c ->
  nth (i * c + j) (flat_map (fun i' => map (f i') (seq 0 c)) (seq s r)) d = f (s + i) j.
Proof.
  revert s i; induction r as [|r IH]; intros s i Hi Hj; [lia|].
  simpl. destruct i as [|i].
  - simpl. rewrite app_nth1 by (rewrite length_map, length_seq; lia).
    rewrite (nth_indep _ d (f s 0)) by (rewrite length_map, length_seq; lia).
    rewrite map_nth, seq_nth by lia. f_equal; lia.
  - rewrite app_nth2 by (rewrite length_map, length_seq; simpl; lia).
    rewrite length_map, length_seq.
    replace (S i * c + j - c) with (i * c + j) by (simpl; lia).
    rewrite IH by lia. f_equal; lia.
Qed.

Lemma nth_tabulate {T} (f : nat -> nat -> T) r c d i j :
  i < r -> j < c -> nth (i * c + j) (tabulate r c f) d = f i j.
Proof. intros Hi Hj. unfold tabulate. rewrite nth_tabulate_from by assumption. reflexivity. Qed.

Lemma bget_inside {T} (d : T) s l i j :
  i < fst s -> j < snd s -> bget d (Matrix s l) i j = nth (i * snd s + j) l d.
Proof.
  destruct s as [r c]; simpl; intros Hi Hj. unfold bget; simpl.
  destruct (Nat.eqb_spec r 1), (Nat.eqb_spec c 1); subst; f_equal;
    repeat match goal with H : _ < 1 |- _ => apply Nat.lt_1_r in H; subst end; lia.
Qed.

Lemma broadcast_shape_same s : broadcast_shape s s = Some s.
Proof.
  destruct s as [r c]. unfold broadcast_shape, broadcast_dim; simpl.
  rewrite !Nat.eqb_refl. reflexivity.
Qed.

Lemma zip_with_map_self {T U} (g : T -> bool) (f : bool -> T -> U) (l : list T) :
  zip_with f (map g l) l = map (fun x => f (g x) x) l.
Proof. induction l as [|x l IH]; simpl; [reflexivity | now rewrite IH]. Qed.

Lemma index_split c k i j : j < c -> k = i * c + j -> k / c = i /\ k mod c = j.
Proof.
  intros Hj ->. split.
  - symmetry. apply (Nat.div_unique _ _ _ j); lia.
  - symmetry. apply (Nat.mod_unique _ _ i); lia.
Qed.

(** ** The store *)

Section StoreFacts.
Context {A : Type} {SA : Scalar A}.

Lemma fresh_lookup (w : world A) : heap w !! fresh (dom (heap w)) = None.
Proof. apply not_elem_of_dom, is_fresh. Qed.

Lemma preserved_refl (w : world A) : preserved w w.
Proof. intros l buf Hl; exact Hl. Qed.

Lemma preserved_trans (w1 w2 w3 : world A) :
  preserved w1 w2 -> preserved w2 w3 -> preserved w1 w3.
Proof. intros H12 H23 l buf Hl. apply H23, H12, Hl. Qed.

Lemma preserved_alloc (w : world A) buf n :
  preserved w (World (<[fresh (dom (heap w)) := buf]> (heap w)) n).
Proof.
  intros l b Hl; simpl. rewrite lookup_insert_ne; [exact Hl|].
  intros <-. rewrite fresh_lookup in Hl. discriminate.
Qed.

Lemma holds_length (w : world A) a vals :
  holds w a vals -> length vals = fst (shape a) * snd (shape a).
Proof.
  intros (buf & _ & Hlen & ->). rewrite length_take, length_drop. lia.
Qed.

Lemma holds_preserved (w w' : world A) a vals :
  preserved w w' -> holds w a vals -> holds w' a vals.
Proof.
  intros Hp (buf & Hl & Hlen & Hv). exists buf. split; [apply Hp, Hl | auto].
Qed.

Lemma read_view_holds (w : world A) a vals :
  holds w a vals -> read_view a w = (Ok (Matrix (shape a) vals), w).
Proof.
  intros (buf & Hl & Hlen & ->). unfold read_view, bind, load. rewrite Hl.
  destruct (Nat.leb_spec (offset a + fst (shape a) * snd (shape a)) (length buf));
    [reflexivity | lia].
Qed.

Lemma read_view_fails (w : world A) a :
  (forall vals, ~ holds w a vals) -> read_view a w = (Raise InvalidRef, w).
Proof.
  intros Hno. unfold read_view, bind, load.
  destruct (heap w !! base a) as [buf|] eqn:Hl; [|reflexivity].
  destruct (Nat.leb_spec (offset a + fst (shape a) * snd (shape a)) (length buf));
    [|reflexivity].
  exfalso. eapply Hno. exists buf. eauto.
Qed.

Lemma holds_or_not (w : world A) a :
  (exists vals, holds w a vals) \/ (forall vals, ~ holds w a vals).
Proof.
  destruct (heap w !! base a) as [buf|] eqn:Hl.
  - destruct (le_lt_dec (offset a + fst (shape a) * snd (shape a)) (length buf)).
    + left. eexists. exists buf. eauto.
    + right. intros vals (buf' & Hl' & Hlen & _). rewrite Hl in Hl'.
      injection Hl' as <-. lia.
  - right. intros vals (buf' & Hl' & _). rewrite Hl in Hl'. discriminate.
Qed.

Lemma bind_ok {X Y} (m : M A X) (k : X -> M A Y) w x w' :
  m w = (Ok x, w') -> bind m k w = k x w'.
Proof. intros Hm. unfold bind. rewrite Hm. reflexivity. Qed.

Lemma bind_raise {X Y} (m : M A X) (k : X -> M A Y) w e w' :
  m w = (Raise e, w') -> bind m k w = (Raise e, w').
Proof. intros Hm. unfold bind. rewrite Hm. reflexivity. Qed.

Lemma load_run (w : world A) l buf :
  heap w !! l = Some buf -> load l w = (Ok buf, w).
Proof. intros Hl. unfold load. rewrite Hl. reflexivity. Qed.

Lemma np_min_run (w : world A) l buf :
  heap w !! l = Some buf -> np_min l w = (reduce minimum buf, w).
Proof. intros Hl. unfold np_min. erewrite bind_ok by (apply load_run, Hl). reflexivity. Qed.

Lemma np_max_run (w : world A) l buf :
  heap w !! l = Some buf -> np_max l w = (reduce maximum buf, w).
Proof. intros Hl. unfold np_max. erewrite bind_ok by (apply load_run, Hl). reflexivity. Qed.

Lemma iadd_run (w : world A) l buf x :
  heap w !! l = Some buf ->
  iadd l x w = (Ok tt, World (<[l := map (fun v => add v x) buf]> (heap w)) (rng w)).
Proof. intros Hl. unfold iadd. erewrite bind_ok by (apply load_run, Hl). reflexivity. Qed.

Lemma idiv_run (w : world A) l buf x :
  heap w !! l = Some buf ->
  idiv l x w = (Ok tt, World (<[l := map (fun v => div v x) buf]> (heap w)) (rng w)).
Proof. intros Hl. unfold idiv. erewrite bind_ok by (apply load_run, Hl). reflexivity. Qed.

Lemma np_reshape_run (w : world A) l buf s :
  heap w !! l = Some buf -> length buf = fst s * snd s ->
  np_reshape l s w = (Ok (NdArray l 0 s), w).
Proof.
  intros Hl Hlen. unfold np_reshape. erewrite bind_ok by (apply load_run, Hl).
  rewrite Hlen, Nat.eqb_refl. reflexivity.
Qed.

Lemma flatten_run (w : world A) a vals :
  holds w a vals ->
  flatten a w =
    (Ok (fresh (dom (heap w))),
     World (<[fresh (dom (heap w)) := vals]> (heap w)) (rng w)).
Proof.
  intros Hh. unfold flatten.
  erewrite bind_ok by (apply read_view_holds, Hh). reflexivity.
Qed.

(** What a call of scale_2D does to the store. *)
Lemma scale_2D_run (w : world A) data sr vals :
  holds w data vals ->
  scale_2D data sr w =
    let l := fresh (dom (heap w)) in
    let range := with_default (of_Z 0, of_Z 255) sr in
    match scale_values vals (fst range) (snd range) with
    | Ok out => (Ok (NdArray l 0 (shape data)), World (<[l := out]> (heap w)) (rng w))
    | Raise e => (Raise e, World (<[l := vals]> (heap w)) (rng w))
    end.
Proof.
  intros Hh. pose proof (holds_length _ _ _ Hh) as Hlen.
  unfold scale_2D. destruct (shape data) as [r c] eqn:Hs.
  cbv zeta. set (range := with_default (of_Z 0, of_Z 255) sr).
  set (l := fresh (dom (heap w))).
  erewrite bind_ok by (apply flatten_run, Hh). fold l.
  destruct vals as [|x xs].
  - erewrite bind_raise; [reflexivity|].
    erewrite np_min_run by (simpl; apply lookup_insert_eq). reflexivity.
  - unfold scale_values. cbn [reduce].
    erewrite bind_ok by (erewrite np_min_run by (simpl; apply lookup_insert_eq); reflexivity).
    erewrite bind_ok by (apply iadd_run; simpl; apply lookup_insert_eq).
    erewrite bind_ok by (erewrite np_max_run by (simpl; apply lookup_insert_eq); reflexivity).
    erewrite bind_ok by (apply idiv_run; simpl; apply lookup_insert_eq).
    erewrite bind_ok by (apply iadd_run; simpl; apply lookup_insert_eq).
    erewrite np_reshape_run;
      [| simpl; apply lookup_insert_eq
       | cbn [map length]; rewrite ?length_map; exact Hlen].
    cbn [heap rng map]. rewrite !insert_insert_eq. reflexivity.
Qed.

Lemma holds_fresh (h : gmap positive (list A)) n l s buf :
  length buf = fst s * snd s ->
  holds (World (<[l := buf]> h) n) (NdArray l 0 s) buf.
Proof.
  intros Hlen. exists buf. simpl. rewrite lookup_insert_eq.
  split; [reflexivity|]. split; [lia|].
  rewrite drop_0, <- Hlen, firstn_all. reflexivity.
Qed.

Lemma scale_2D_invalid (w : world A) data sr :
  (forall vals, ~ holds w data vals) -> scale_2D data sr w = (Raise InvalidRef, w).
Proof.
  intros Hno. unfold scale_2D. destruct (shape data) as [r c].
  unfold bind at 1. unfold flatten, bind at 1.
  rewrite (read_view_fails _ _ Hno). reflexivity.
Qed.

Lemma wp_bind {X Y} (m : M A X) (k : X -> M A Y) Q w :
  wp m (fun x w' => wp (k x) Q w') w -> wp (bind m k) Q w.
Proof. unfold wp, bind. destruct (m w) as [[x|e] w']; auto. Qed.

Lemma wp_conseq {X} (m : M A X) (P Q : X -> world A -> Prop) w :
  wp m P w -> (forall x w', P x w' -> Q x w') -> wp m Q w.
Proof. unfold wp. destruct (m w) as [[x|e] w']; auto. Qed.

Lemma wp_any {X} (m : M A X) (Q : X -> world A -> Prop) w :
  (forall x w', Q x w') -> wp m Q w.
Proof. unfold wp. destruct (m w) as [[x|e] w']; auto. Qed.

Lemma wp_ret {X} (x : X) (Q : X -> world A -> Prop) w : Q x w -> wp (ret x) Q w.
Proof. auto. Qed.

Lemma wp_never {X} (m : M A X) w :
  wp m (fun _ _ => False) w -> exists e, fst (m w) = Raise e.
Proof. unfold wp. destruct (m w) as [[x|e] w']; [contradiction | eauto]. Qed.

Lemma wp_lift {X} (r : res X) (Q : X -> world A -> Prop) w :
  (forall x, r = Ok x -> Q x w) -> wp (lift r) Q w.
Proof. unfold wp, lift. destruct r; auto. Qed.

End StoreFacts.

(** ** scale_2D leaves the store it was given alone *)

Section Frame.
Context {A : Type} {SA : Scalar A}.

Lemma entry_preserved (w w' : world A) a i j :
  preserved w w' -> (heap w !! base a = None -> heap w' !! base a = None) ->
  entry w' a i j = entry w a i j.
Proof.
  intros Hp Hnone. unfold entry.
  destruct (heap w !! base a) as [buf|] eqn:Hl.
  - rewrite (Hp _ _ Hl). reflexivity.
  - rewrite (Hnone eq_refl). reflexivity.
Qed.

(** C10.  scale_2D never writes to the array it is given: whatever the
    call does (return or raise), every buffer of the store holds afterwards
    what it held before, and so every entry of the input field is the
    same.  The arithmetic is done on the copy that flatten allocates. *)
Theorem scale_2D_input_unchanged (w : world A) (data : ndarray) (sr : arg (A * A)) :
  preserved w (snd (scale_2D data sr w)) /\
  (forall i j, entry (snd (scale_2D data sr w)) data i j = entry w data i j) /\
  (forall out w', scale_2D data sr w = (Ok out, w') -> base out <> base data).
Proof.
  destruct (holds_or_not w data) as [[vals Hh]|Hno].
  - rewrite (scale_2D_run w data sr vals Hh). cbv zeta.
    assert (Hfresh : base data <> fresh (dom (heap w))).
    { destruct Hh as (buf & Hl & _). intros Heq. rewrite Heq, fresh_lookup in Hl.
      discriminate. }
    destruct (scale_values vals _ _) as [out|e]; simpl snd.
    + split; [apply preserved_alloc|]. split.
      * intros i j. unfold entry. simpl heap. rewrite lookup_insert_ne by auto. reflexivity.
      * intros out' w' [= <- _]. simpl. auto.
    + split; [apply preserved_alloc|]. split.
      * intros i j. unfold entry. simpl heap. rewrite lookup_insert_ne by auto. reflexivity.
      * intros out' w' [=].
  - rewrite (scale_2D_invalid w data sr Hno). simpl snd.
    split; [apply preserved_refl|]. split; [reflexivity|]. intros out' w' [=].
Qed.

End Frame.

(** ** IEEE arithmetic: a constant field *)

Section Binary64.

Lemma f64_add_neg_self (c : F64.t) :
  F64.add c (SFopp c) = S754_zero false \/ F64.add c (SFopp c) = S754_nan.
Proof.
  destruct c as [s|s| |s m e]; simpl.
  - left. destruct s; reflexivity.
  - right. destruct s; reflexivity.
  - right. reflexivity.
  - left. unfold F64.add, SFadd. rewrite Z.min_id.
    set (a := Zpos (fst (shl_align m e e))).
    replace (cond_Zopp s a + cond_Zopp (negb s) a)%Z with 0%Z
      by (destruct s; simpl; lia).
    reflexivity.
Qed.

Lemma f64_add_neg_self_finite (c : F64.t) :
  F64.isnan c = false -> (forall s, c <> S754_infinity s) ->
  F64.add c (SFopp c) = S754_zero false.
Proof.
  intros Hn Hi. destruct (f64_add_neg_self c) as [Hz|Hz]; [exact Hz|].
  destruct c as [s|s| |s m e]; simpl in *; try discriminate.
  - destruct s; discriminate.
  - exfalso. apply (Hi s). reflexivity.
  - unfold F64.add, SFadd in Hz. rewrite Z.min_id in Hz.
    set (a := Zpos (fst (shl_align m e e))) in Hz.
    replace (cond_Zopp s a + cond_Zopp (negb s) a)%Z with 0%Z in Hz
      by (destruct s; simpl; lia).
    discriminate.
Qed.

Lemma f64_minimum_self (c : F64.t) : F64.minimum c c = c.
Proof. unfold F64.minimum. destruct (F64.isnan c), (SFltb c c); reflexivity. Qed.

Lemma f64_maximum_self (c : F64.t) : F64.maximum c c = c.
Proof. unfold F64.maximum. destruct (F64.isnan c), (SFltb c c); reflexivity. Qed.

Lemma fold_constant (f : F64.t -> F64.t -> F64.t) (c : F64.t) (l : list F64.t) :
  f c c = c -> Forall (fun v => v = c) l -> fold_left f l c = c.
Proof.
  intros Hf Hall. induction Hall as [|x l Hx _ IH]; simpl; [reflexivity|].
  rewrite Hx, Hf. exact IH.
Qed.

Lemma map_constant {T U} (g : T -> U) (c : T) (l : list T) :
  Forall (fun v => v = c) l -> map g l = replicate (length l) (g c).
Proof.
  intros Hall. induction Hall as [|x l Hx _ IH]; simpl; [reflexivity|].
  rewrite Hx, IH. reflexivity.
Qed.

Lemma map_replicate_const {T U} (g : T -> U) (c : T) n :
  map g (replicate n c) = replicate n (g c).
Proof. induction n as [|n IH]; simpl; [reflexivity | now rewrite IH]. Qed.

(** 0 / (0 / r) is NaN for every r, and so is NaN / (NaN / r). *)
Lemma f64_zero_div_zero (z r : F64.t) :
  z = S754_zero false \/ z = S754_nan ->
  F64.div z (F64.div z r) = S754_nan.
Proof.
  intros [->| ->]; [|reflexivity].
  destruct r as [s|s| |s m e]; reflexivity.
Qed.

Lemma scale_values_constant (vals : list F64.t) (c lo hi : F64.t) :
  vals <> [] -> Forall (fun v => v = c) vals ->
  reduce minimum vals = Ok c /\
  reduce maximum (map (fun v => add v (neg c)) vals) = Ok (F64.add c (SFopp c)) /\
  scale_values vals lo hi = Ok (replicate (length vals) S754_nan).
Proof.
  intros Hne Hall. destruct vals as [|x xs]; [congruence|].
  inversion Hall as [|? ? Hx Hxs]; subst.
  assert (Hmin : reduce minimum (c :: xs) = Ok c).
  { simpl. f_equal. apply fold_constant; [apply f64_minimum_self | exact Hxs]. }
  set (z := F64.add c (SFopp c)).
  assert (Hshift : map (fun v => add v (neg c)) (c :: xs) = replicate (length (c :: xs)) z).
  { exact (map_constant (fun v => add v (neg c)) c (c :: xs) Hall). }
  assert (Hmax : reduce maximum (map (fun v => add v (neg c)) (c :: xs)) = Ok z).
  { rewrite Hshift. simpl. f_equal. apply fold_constant; [apply f64_maximum_self|].
    apply Forall_forall. intros v Hv. apply elem_of_replicate in Hv. tauto. }
  split; [exact Hmin|]. split; [exact Hmax|].
  unfold scale_values. rewrite Hmin. cbv zeta. rewrite Hmax, Hshift.
  rewrite !map_replicate_const. f_equal. f_equal.
  change (F64.add (F64.div z (F64.div z (F64.sub hi lo))) lo = S754_nan).
  rewrite f64_zero_div_zero by apply f64_add_neg_self. reflexivity.
Qed.

(** C9.  On a constant field scale_2D does not raise and does not clamp:
    the shifted maximum is c - c, which is 0 when c is finite, the division
    by it is carried out, and every entry of the result is NaN. *)
Theorem scale_2D_constant_nan (w : world F64.t) (data : ndarray) (sr : arg (F64.t * F64.t))
    (vals : list F64.t) (c : F64.t) :
  holds w data vals -> vals <> [] -> Forall (fun v => v = c) vals ->
  exists out w',
    scale_2D data sr w = (Ok out, w') /\
    shape out = shape data /\
    holds w' out (replicate (length vals) S754_nan) /\
    reduce maximum (map (fun v => add v (neg c)) vals) = Ok (F64.add c (SFopp c)) /\
    (F64.isnan c = false -> (forall s, c <> S754_infinity s) ->
     F64.add c (SFopp c) = S754_zero false).
Proof.
  intros Hh Hne Hall.
  destruct (scale_values_constant vals c
              (fst (with_default (of_Z 0, of_Z 255) sr))
              (snd (with_default (of_Z 0, of_Z 255) sr)) Hne Hall)
    as (_ & Hmax & Hsv).
  rewrite (scale_2D_run w data sr vals Hh). cbv zeta. rewrite Hsv.
  eexists _, _. split; [reflexivity|]. split; [reflexivity|].
  split; [|split; [exact Hmax | apply f64_add_neg_self_finite]].
  exists (replicate (length vals) S754_nan). simpl.
  rewrite lookup_insert_eq. split; [reflexivity|].
  rewrite length_replicate, <- (holds_length w data vals Hh).
  split; [lia|]. rewrite drop_0, take_ge by (rewrite length_replicate; lia).
  reflexivity.
Qed.

Lemma scale_2D_constant_nan_witness :
  exists out w',
    scale_2D (NdArray 1 0 (2, 2)) Omitted constant_2x2 = (Ok out, w') /\
    holds w' out (replicate 4 S754_nan).
Proof.
  destruct (scale_2D_constant_nan constant_2x2 (NdArray 1 0 (2, 2)) Omitted
              (replicate 4 (F64.of_Z 7)) (F64.of_Z 7))
    as (out & w' & Hrun & _ & Hout & _).
  - exists (replicate 4 (F64.of_Z 7)).
    split; [reflexivity|]. split; [simpl; lia | reflexivity].
  - discriminate.
  - repeat constructor.
  - exists out, w'. split; [exact Hrun | exact Hout].
Defined.

End Binary64.

(** ** create_composition: what it writes and what it leaves alone *)

Section Composition.
Context {A : Type} {SA : Scalar A} {SQ : Sqrt A}.

Lemma nth_map_inside {T U} (f : T -> U) l k d d' :
  k < length l -> nth k (map f l) d' = f (nth k l d).
Proof.
  intros Hk. rewrite (nth_indep _ d' (f d)) by (rewrite length_map; exact Hk).
  apply map_nth.
Qed.

Lemma nth_zip_inside {T U} (a : list T) (b : list U) k d :
  k < length a -> k < length b ->
  nth k (zip a b) d = (nth k a (fst d), nth k b (snd d)).
Proof.
  revert b k; induction a as [|x a IH]; intros [|y b] k Ha Hb; simpl in *; try lia.
  destruct k as [|k]; [reflexivity|]. apply IH; lia.
Qed.

Lemma map_tabulate {T U} (g : T -> U) (f : nat -> nat -> T) r c :
  map g (tabulate r c f) = tabulate r c (fun i j => g (f i j)).
Proof.
  unfold tabulate. generalize 0 at 2 4. induction r as [|r IH]; intros s; simpl; [reflexivity|].
  rewrite map_app, map_map, IH. reflexivity.
Qed.

Lemma slice_axis_inside (n : nat) (start : Z) (len : nat) :
  (0 <= start)%Z -> (start + Z.of_nat len <= Z.of_nat n)%Z ->
  slice_axis n start (start + Z.of_nat len) = (Z.to_nat start, len).
Proof.
  intros Hlo Hhi. unfold slice_axis, slice_norm.
  destruct (Z.ltb_spec start 0); [lia|].
  destruct (Z.ltb_spec (start + Z.of_nat len) 0); [lia|].
  f_equal; lia.
Qed.

Lemma ma_array_same {T} (data : matrix T) (mask : matrix bool) :
  mshape mask = mshape data -> ma_array data mask = Ok (Masked data (mdata mask)).
Proof. intros Hs. unfold ma_array. destruct (decide _); [reflexivity | contradiction]. Qed.

Lemma broadcast2_same {T U V} (dt : T) (du : U) (f : T -> U -> V) s a b :
  broadcast2 dt du f (Matrix s a) (Matrix s b) =
    Ok (Matrix s (tabulate (fst s) (snd s)
          (fun i j => f (bget dt (Matrix s a) i j) (bget du (Matrix s b) i j)))).
Proof.
  unfold broadcast2. simpl. rewrite broadcast_shape_same. destruct s. reflexivity.
Qed.

Lemma tabulate_ext {T} (f g : nat -> nat -> T) r c :
  (forall i j, i < r -> j < c -> f i j = g i j) -> tabulate r c f = tabulate r c g.
Proof.
  intros Hfg. unfold tabulate.
  assert (Hgen : forall s, s + r <= r + 0 + s ->
            (forall i j, s <= i < s + r -> j < c -> f i j = g i j) ->
            flat_map (fun i => map (f i) (seq 0 c)) (seq s r) =
            flat_map (fun i => map (g i) (seq 0 c)) (seq s r)).
  { clear Hfg. induction r as [|r IH]; intros s _ Hfg; simpl; [reflexivity|].
    f_equal.
    - apply map_ext_in. intros j Hj. apply in_seq in Hj. apply Hfg; lia.
    - apply IH; [lia|]. intros i j Hi Hj. apply Hfg; lia. }
  apply Hgen; [lia|]. intros i j Hi Hj. apply Hfg; lia.
Qed.

Lemma bind_lift_ok {X Y} (r : res X) (k : X -> M A Y) w x :
  r = Ok x -> bind (lift r) k w = k x w.
Proof. intros ->. reflexivity. Qed.

Lemma new_array_run (m : matrix A) (w : world A) :
  new_array m w =
    (Ok (NdArray (fresh (dom (heap w))) 0 (mshape m)),
     World (<[fresh (dom (heap w)) := mdata m]> (heap w)) (rng w)).
Proof. reflexivity. Qed.

Lemma scale_values_nonempty (l : list A) lo hi :
  l <> [] -> exists out, scale_values l lo hi = Ok out /\ length out = length l.
Proof.
  destruct l as [|x xs]; [congruence|]. intros _. unfold scale_values. cbn [reduce map].
  eexists. split; [reflexivity|]. cbn [map length]. rewrite !length_map. reflexivity.
Qed.

Lemma length_clamped n c r : length (clamped_distances n n c r) = n * n.
Proof. unfold clamped_distances. simpl. rewrite length_map, length_tabulate. reflexivity. Qed.

Lemma read_window_run (w : world A) a win vals :
  holds w a vals ->
  read_window a win w =
    (Ok (Matrix (w_nr win, w_nc win)
           (tabulate (w_nr win) (w_nc win)
              (fun i j => nth ((w_r0 win + i) * snd (shape a) + (w_c0 win + j)) vals (of_Z 0)))),
     w).
Proof.
  intros Hh. unfold read_window. erewrite bind_ok by (apply read_view_holds, Hh).
  reflexivity.
Qed.

Lemma write_window_run (w : world A) a win v buf :
  heap w !! base a = Some buf ->
  assignable (mshape v) (w_nr win, w_nc win) = true ->
  write_window a win v w =
    (Ok tt,
     World (<[base a :=
                imap (fun k old =>
                        if (offset a <=? k) && in_window win (snd (shape a)) (k - offset a)
                        then bget (of_Z 0) v ((k - offset a) / snd (shape a) - w_r0 win)
                               ((k - offset a) mod snd (shape a) - w_c0 win)
                        else old) buf]> (heap w)) (rng w)).
Proof.
  intros Hl Has. unfold write_window. erewrite bind_ok by (apply load_run, Hl).
  rewrite Has. reflexivity.
Qed.

Lemma slice2_inside (s : nat * nat) (y x : Z) (nr nc : nat) :
  (0 <= y)%Z -> (y + Z.of_nat nr <= Z.of_nat (fst s))%Z ->
  (0 <= x)%Z -> (x + Z.of_nat nc <= Z.of_nat (snd s))%Z ->
  slice2 s y (y + Z.of_nat nr) x (x + Z.of_nat nc) =
    Window (Z.to_nat y) nr (Z.to_nat x) nc.
Proof.
  intros. unfold slice2. rewrite !slice_axis_inside by assumption. reflexivity.
Qed.

Lemma slice_norm_le (len : nat) (k : Z) : slice_norm len k <= len.
Proof. unfold slice_norm. destruct (Z.ltb_spec k 0); lia. Qed.

Lemma slice2_bounds (s : nat * nat) (ya yb xa xb : Z) (y0 nr x0 nc : nat) :
  slice2 s ya yb xa xb = Window y0 nr x0 nc ->
  y0 + nr <= fst s /\ x0 + nc <= snd s.
Proof.
  unfold slice2, slice_axis. intros [= <- <- <- <-].
  pose proof (slice_norm_le (fst s) ya). pose proof (slice_norm_le (fst s) yb).
  pose proof (slice_norm_le (snd s) xa). pose proof (slice_norm_le (snd s) xb).
  lia.
Qed.

Lemma create_composition_run (w0 : world A) input bg xo yo center radius n img bgv y0 x0 :
  let x := with_default 0%Z xo in
  let y := with_default 0%Z yo in
  let c := match with_default None center with
           | None => default_center n n | Some c => c end in
  let r := match with_default (Some (of_Z 0)) radius with
           | None => default_radius n n c | Some r => r end in
  let C := snd (shape bg) in
  shape input = (n, n) -> 0 < n ->
  holds w0 input img -> holds w0 bg bgv ->
  slice2 (shape bg) y (y + Z.of_nat n) x (x + Z.of_nat n) = Window y0 n x0 n ->
  exists fade buf l1 l2 patch,
    scale_values (clamped_distances n n c r) (of_Z 0) (of_Z 1) = Ok fade /\
    heap w0 !! base bg = Some buf /\
    heap w0 !! l1 = None /\ heap w0 !! l2 = None /\
    length patch = n * n /\
    (forall i j, i < n -> j < n ->
       nth (i * n + j) patch (of_Z 0) =
         composed_entry img bgv fade n C y0 x0 c r i j) /\
    create_composition input bg xo yo center radius w0 =
      (Ok bg,
       World (<[base bg :=
                  imap (fun k old =>
                          if (offset bg <=? k) &&
                             in_window (Window y0 n x0 n) C (k - offset bg)
                          then bget (of_Z 0) (Matrix (n, n) patch)
                                 ((k - offset bg) / C - y0)
                                 ((k - offset bg) mod C - x0)
                          else old) buf]>
                (<[l2 := fade]>
                   (<[l1 := clamped_distances n n c r]> (heap w0))))
             (rng w0)).
Proof.
  intros x y c r C Hshape Hn Himg Hbg Hwin.
  pose proof (holds_length _ _ _ Himg) as Limg. rewrite Hshape in Limg. cbn [fst snd] in Limg.
  assert (Hcl : clamped_distances n n c r <> []).
  { intros Hnil. pose proof (length_clamped n c r) as L. rewrite Hnil in L. simpl in L. nia. }
  destruct (scale_values_nonempty _ (of_Z 0) (of_Z 1) Hcl) as (fade & Hfade & Lfade).
  rewrite length_clamped in Lfade.
  destruct Hbg as (buf & Hbuf & Hblen & Hbgv).
  set (l1 := fresh (dom (heap w0))).
  set (w1 := World (<[l1 := clamped_distances n n c r]> (heap w0)) (rng w0)).
  set (l2 := fresh (dom (heap w1))).
  set (w2 := World (<[l2 := fade]> (heap w1)) (rng w1)).
  assert (P01 : preserved w0 w1) by apply preserved_alloc.
  assert (P12 : preserved w1 w2) by apply preserved_alloc.
  exists fade, buf, l1, l2.
  unfold create_composition. rewrite Hshape. cbv zeta. fold x y c r.
  erewrite bind_ok by (apply read_view_holds, Himg). rewrite Hshape.
  erewrite bind_lift_ok by (apply ma_array_same; reflexivity).
  erewrite bind_lift_ok by (apply ma_array_same; reflexivity).
  erewrite bind_lift_ok by (apply ma_array_same; reflexivity).
  erewrite bind_ok by (apply new_array_run).
  cbn [ma_data ma_setitem_bool mshape mdata mmap dist_from_center].
  rewrite zip_with_map_self.
  change (map (fun x0 : A => if leb x0 r then r else x0)
            (tabulate n n (fun y0 x0 : nat =>
               sqrt (of_Z ((Z.of_nat x0 - c.1) ^ 2 + (Z.of_nat y0 - c.2) ^ 2)))))
    with (clamped_distances n n c r).
  fold l1 w1.
  assert (Hscale : scale_2D (NdArray l1 0 (n, n)) (Passed (of_Z 0, of_Z 1)) w1 =
                     (Ok (NdArray l2 0 (n, n)), w2)).
  { erewrite scale_2D_run by (apply holds_fresh; apply length_clamped).
    cbv zeta. cbn [with_default fst snd]. rewrite Hfade. reflexivity. }
  erewrite bind_ok by exact Hscale.
  erewrite bind_ok by (apply read_view_holds; apply holds_fresh; exact Lfade).
  assert (Hbg2 : holds w2 bg bgv).
  { apply (holds_preserved w1); [exact P12|]. apply (holds_preserved w0); [exact P01|].
    exists buf. auto. }
  rewrite Hwin.
  erewrite bind_ok by (apply read_window_run, Hbg2).
  cbn [w_r0 w_nr w_c0 w_nc shape].
  rewrite broadcast2_same. erewrite bind_lift_ok by reflexivity.
  rewrite broadcast2_same. erewrite bind_lift_ok by reflexivity.
  unfold ma_radd. cbn [ma_data ma_mask mshape mdata].
  rewrite broadcast2_same. erewrite bind_lift_ok by reflexivity.
  erewrite bind_ok;
    [| apply write_window_run;
       [ apply P12, P01, Hbuf
       | unfold assignable; cbn [mshape mmap fst snd w_nr w_nc];
         rewrite !Nat.eqb_refl; reflexivity ] ].
  cbn [ma_data mmap mshape mdata fst snd].
  eexists. split; [exact Hfade|]. split; [exact Hbuf|].
  split; [apply fresh_lookup|]. split.
  { destruct (heap w0 !! l2) eqn:Hl2; [|reflexivity].
    apply P01 in Hl2. unfold l2 in Hl2. rewrite fresh_lookup in Hl2. discriminate. }
  split; [|split; [|reflexivity]].
  - cbn [mdata]. rewrite length_map, length_tabulate. reflexivity.
  - intros i j Hi Hj. cbn [mdata]. rewrite map_tabulate, nth_tabulate by assumption.
    cbn [fst].
    rewrite !bget_inside by (cbn [fst snd]; assumption). cbn [fst snd].
    assert (Hk : i * n + j < n * n) by nia.
    rewrite nth_zip_inside
      by (rewrite ?length_map, ?length_tabulate; lia).
    cbn [fst snd].
    rewrite !nth_tabulate by assumption.
    rewrite !bget_inside by (cbn [fst snd]; assumption). cbn [fst snd].
    rewrite !nth_tabulate by assumption.
    repeat (progress (rewrite ?bget_inside by (cbn [fst snd]; assumption);
                      cbn [fst snd]; rewrite ?nth_tabulate by assumption)).
    rewrite (nth_map_inside negb _ _ false) by (rewrite length_map, length_tabulate; lia).
    rewrite (nth_map_inside (fun d => leb d r) _ _ (of_Z 0)) by (rewrite length_tabulate; lia).
    rewrite nth_tabulate by assumption.
    unfold composed_entry. cbv zeta.
    destruct (leb _ r); simpl; reflexivity.
Qed.

(** On a square image whose window lies in the background the call
    returns, and the window holds the composed patch. *)
Lemma create_composition_window (w0 : world A) (input bg : ndarray)
    (xo yo : arg Z) (center : arg (option (Z * Z))) (radius : arg (option A))
    (n : nat) (img bgv : list A) (y0 x0 : nat) :
  let x := with_default 0%Z xo in
  let y := with_default 0%Z yo in
  let c := match with_default None center with
           | None => default_center n n | Some c => c end in
  let r := match with_default (Some (of_Z 0)) radius with
           | None => default_radius n n c | Some r => r end in
  let R := fst (shape bg) in
  let C := snd (shape bg) in
  shape input = (n, n) -> 0 < n ->
  holds w0 input img -> holds w0 bg bgv ->
  slice2 (shape bg) y (y + Z.of_nat n) x (x + Z.of_nat n) = Window y0 n x0 n ->
  exists w' fade,
    create_composition input bg xo yo center radius w0 = (Ok bg, w') /\
    scale_values (clamped_distances n n c r) (of_Z 0) (of_Z 1) = Ok fade /\
    (forall i j, i < n -> j < n ->
       entry w' bg (y0 + i) (x0 + j) =
         Some (composed_entry img bgv fade n C y0 x0 c r i j)) /\
    (forall i j, i < R -> j < C ->
       ~ (y0 <= i < y0 + n /\ x0 <= j < x0 + n) ->
       entry w' bg i j = entry w0 bg i j) /\
    (forall l buf, l <> base bg -> heap w0 !! l = Some buf -> heap w' !! l = Some buf) /\
    (exists buf buf',
       heap w0 !! base bg = Some buf /\ heap w' !! base bg = Some buf' /\
       length buf' = length buf /\
       forall k, k < offset bg \/ offset bg + R * C <= k -> buf' !! k = buf !! k).
Proof.
  intros x y c r R C Hshape Hn Himg Hbg Hwin.
  destruct (create_composition_run w0 input bg xo yo center radius n img bgv y0 x0
              Hshape Hn Himg Hbg Hwin)
    as (fade & buf & l1 & l2 & patch & Hfade & Hbuf & Hl1 & Hl2 & Lpatch & Hpatch & Hrun).
  fold x y c r C in Hfade, Hpatch, Hrun.
  destruct Hbg as (buf0 & Hbuf0 & Hblen & Hbgv).
  rewrite Hbuf in Hbuf0. injection Hbuf0 as <-. fold R C in Hblen, Hbgv.
  destruct (slice2_bounds _ _ _ _ _ _ _ _ _ Hwin) as [Hyr Hxc]. fold R C in Hyr, Hxc.
  eexists _, fade. split; [exact Hrun|]. split; [exact Hfade|].
  assert (Hidx : forall i j, i < R -> j < C -> offset bg + i * C + j < length buf) by nia.
  assert (Hentry : forall i j, i < R -> j < C ->
            entry w0 bg i j = buf !! (offset bg + i * C + j)).
  { intros i j _ _. unfold entry. rewrite Hbuf. reflexivity. }
  split; [|split; [|split]].
  - intros i j Hi Hj. unfold entry. cbn [heap]. rewrite lookup_insert_eq.
    fold C. rewrite list_lookup_imap.
    destruct (lookup_lt_is_Some_2 buf (offset bg + (y0 + i) * C + (x0 + j))) as [old Hold];
      [apply Hidx; lia|].
    rewrite Hold. cbn [fmap option_fmap option_map].
    replace (offset bg + (y0 + i) * C + (x0 + j) - offset bg)
      with ((y0 + i) * C + (x0 + j)) by lia.
    destruct (index_split C _ (y0 + i) (x0 + j) ltac:(lia) eq_refl) as [Hd Hm].
    unfold in_window. rewrite Hd, Hm. cbn [w_r0 w_nr w_c0 w_nc].
    destruct (Nat.leb_spec (offset bg) (offset bg + (y0 + i) * C + (x0 + j))); [|lia].
    destruct (Nat.leb_spec y0 (y0 + i)); [|lia].
    destruct (Nat.ltb_spec (y0 + i) (y0 + n)); [|lia].
    destruct (Nat.leb_spec x0 (x0 + j)); [|lia].
    destruct (Nat.ltb_spec (x0 + j) (x0 + n)); [|lia].
    cbn [andb]. replace (y0 + i - y0) with i by lia. replace (x0 + j - x0) with j by lia.
    rewrite bget_inside by assumption. cbn [fst snd]. rewrite Hpatch by assumption.
    reflexivity.
  - intros i j Hi Hj Hout. rewrite Hentry by assumption.
    unfold entry. cbn [heap]. rewrite lookup_insert_eq.
    fold C. rewrite list_lookup_imap.
    destruct (lookup_lt_is_Some_2 buf (offset bg + i * C + j)) as [old Hold];
      [apply Hidx; assumption|].
    rewrite Hold. cbn [fmap option_fmap option_map].
    replace (offset bg + i * C + j - offset bg) with (i * C + j) by lia.
    destruct (index_split C _ i j Hj eq_refl) as [Hd Hm].
    unfold in_window. rewrite Hd, Hm. cbn [w_r0 w_nr w_c0 w_nc].
    destruct (Nat.leb_spec y0 i), (Nat.ltb_spec i (y0 + n)),
      (Nat.leb_spec x0 j), (Nat.ltb_spec j (x0 + n));
      rewrite ?andb_false_r; cbn [andb]; try reflexivity.
    exfalso. apply Hout. lia.
  - intros l b Hne Hl. cbn [heap].
    rewrite lookup_insert_ne by auto.
    rewrite lookup_insert_ne by (intros <-; rewrite Hl2 in Hl; discriminate).
    rewrite lookup_insert_ne by (intros <-; rewrite Hl1 in Hl; discriminate).
    exact Hl.
  - eexists buf, _. split; [exact Hbuf|]. split; [cbn [heap]; apply lookup_insert_eq|].
    split; [apply length_imap|].
    intros k Hk. rewrite list_lookup_imap.
    destruct (buf !! k) as [old|] eqn:Hold; [|reflexivity].
    cbn [fmap option_fmap option_map]. f_equal.
    destruct (Nat.leb_spec (offset bg) k) as [Hge|]; [|reflexivity].
    destruct Hk as [Hk|Hk]; [lia|].
    unfold in_window. cbn [w_r0 w_nr w_c0 w_nc andb].
    assert (Hdiv : R <= (k - offset bg) / C).
    { apply Nat.div_le_lower_bound; lia. }
    destruct (Nat.ltb_spec ((k - offset bg) / C) (y0 + n)); [lia|].
    rewrite andb_false_r. reflexivity.
Qed.

Lemma touches_refl l0 sel (w : world A) : touches_only l0 sel w w.
Proof. split; [auto|]. intros buf Hl. exists buf. auto. Qed.

Lemma touches_trans l0 sel (w1 w2 w3 : world A) :
  touches_only l0 sel w1 w2 -> touches_only l0 sel w2 w3 -> touches_only l0 sel w1 w3.
Proof.
  intros [H12 B12] [H23 B23]. split.
  - intros l buf Hne Hl. apply H23, H12; assumption.
  - intros buf Hl. destruct (B12 buf Hl) as (buf2 & Hl2 & Hlen2 & Hk2).
    destruct (B23 buf2 Hl2) as (buf3 & Hl3 & Hlen3 & Hk3).
    exists buf3. split; [exact Hl3|]. split; [congruence|].
    intros k Hk. rewrite Hk3, Hk2 by assumption. reflexivity.
Qed.

Lemma touches_preserved l0 sel (w w' : world A) : preserved w w' -> touches_only l0 sel w w'.
Proof.
  intros Hp. split; [intros l buf _ Hl; apply Hp, Hl|].
  intros buf Hl. exists buf. split; [apply Hp, Hl | auto].
Qed.

Lemma touches_bind {X Y} l0 sel (m : M A X) (k : X -> M A Y) w :
  touches_only l0 sel w (snd (m w)) ->
  (forall x w1, touches_only l0 sel w1 (snd (k x w1))) ->
  touches_only l0 sel w (snd (bind m k w)).
Proof.
  intros Hm Hk. unfold bind. destruct (m w) as [[x|e] w1]; simpl in *; [|exact Hm].
  eapply touches_trans; [exact Hm | apply Hk].
Qed.

Lemma scale_2D_preserved (w : world A) data sr : preserved w (snd (scale_2D data sr w)).
Proof.
  destruct (holds_or_not w data) as [[vals Hh]|Hno].
  - rewrite (scale_2D_run w data sr vals Hh). cbv zeta.
    destruct (scale_values vals _ _); apply preserved_alloc.
  - rewrite (scale_2D_invalid w data sr Hno). apply preserved_refl.
Qed.

Lemma read_view_world (w : world A) a : snd (read_view a w) = w.
Proof.
  destruct (holds_or_not w a) as [[vals Hh]|Hno].
  - rewrite (read_view_holds w a vals Hh). reflexivity.
  - rewrite (read_view_fails w a Hno). reflexivity.
Qed.

Lemma read_window_world (w : world A) a win : snd (read_window a win w) = w.
Proof.
  unfold read_window, bind. pose proof (read_view_world w a) as Hw.
  destruct (read_view a w) as [[m|e] w1]; simpl in *; subst; reflexivity.
Qed.

Lemma write_window_touches (w : world A) a win v :
  touches_only (base a)
    (fun k => (offset a <=? k) && in_window win (snd (shape a)) (k - offset a))
    w (snd (write_window a win v w)).
Proof.
  unfold write_window, bind, load.
  destruct (heap w !! base a) as [buf|] eqn:Hl; [|apply touches_refl].
  destruct (assignable _ _); [|apply touches_refl].
  unfold store. cbn [snd heap]. split.
  - intros l b Hne Hlb. cbn [heap]. rewrite lookup_insert_ne by auto. exact Hlb.
  - intros b Hb. rewrite Hl in Hb. injection Hb as <-.
    eexists. cbn [heap]. rewrite lookup_insert_eq. split; [reflexivity|].
    split; [apply length_imap|].
    intros k Hk. rewrite list_lookup_imap. destruct (buf !! k); [|reflexivity].
    simpl. rewrite Hk. reflexivity.
Qed.

Lemma create_composition_touches (w0 : world A) input bg xo yo center radius :
  touches_only (base bg)
    (fun k => (offset bg <=? k) &&
              in_window (slice2 (shape bg)
                           (with_default 0%Z yo)
                           (with_default 0%Z yo + Z.of_nat (fst (shape input)))
                           (with_default 0%Z xo)
                           (with_default 0%Z xo + Z.of_nat (snd (shape input))))
                (snd (shape bg)) (k - offset bg))
    w0 (snd (create_composition input bg xo yo center radius w0)).
Proof.
  unfold create_composition. destruct (shape input) as [wd ht]. cbv zeta. cbn [fst snd].
  apply touches_bind; [rewrite read_view_world; apply touches_refl | intros image w1].
  apply touches_bind; [apply touches_refl | intros circle_image w2].
  apply touches_bind; [apply touches_refl | intros out_masked w3].
  apply touches_bind; [apply touches_refl | intros out_mask w4].
  apply touches_bind; [apply touches_preserved, preserved_alloc | intros full w5].
  apply touches_bind; [apply touches_preserved, scale_2D_preserved | intros rescaled w6].
  apply touches_bind; [rewrite read_view_world; apply touches_refl | intros fade w7].
  apply touches_bind; [rewrite read_window_world; apply touches_refl | intros bgo w8].
  apply touches_bind; [apply touches_refl | intros faded w9].
  apply touches_bind; [apply touches_refl | intros background_fade w10].
  apply touches_bind; [apply touches_refl | intros new_input_image w11].
  apply touches_bind; [apply write_window_touches | intros u w12].
  apply touches_refl.
Qed.
Lemma wp_create_composition (input bg : ndarray) xo yo center radius w :
  wp (create_composition input bg xo yo center radius) (fun r _ => r = bg) w.
Proof.
  unfold create_composition. destruct (shape input) as [wd ht]. cbv zeta.
  repeat (apply wp_bind; apply wp_any; intros ? ?).
  apply wp_ret. reflexivity.
Qed.


(** C7.  create_composition writes to the buffer of its background
    argument, in place, and returns that very array.  For every call,
    whatever it does: a returned array is [background_image] itself; no
    other buffer of the store changes; the buffer of the background keeps
    its length and every entry outside the window
    [y_offset:y_offset+w, x_offset:x_offset+h].  For a square image whose
    window has the size of the image the call returns, and the window holds
    the composed patch. *)
Theorem create_composition_frame (w0 : world A) (input bg : ndarray)
    (xo yo : arg Z) (center : arg (option (Z * Z))) (radius : arg (option A)) :
  let x := with_default 0%Z xo in
  let y := with_default 0%Z yo in
  let R := fst (shape bg) in
  let C := snd (shape bg) in
  let win := slice2 (shape bg) y (y + Z.of_nat (fst (shape input)))
               x (x + Z.of_nat (snd (shape input))) in
  let out := create_composition input bg xo yo center radius w0 in
  (forall r, fst out = Ok r -> r = bg) /\
  touches_only (base bg)
    (fun k => (offset bg <=? k) && in_window win C (k - offset bg)) w0 (snd out) /\
  (forall (n : nat) (img bgv : list A) (y0 x0 : nat),
     let c := match with_default None center with
              | None => default_center n n | Some c => c end in
     let r := match with_default (Some (of_Z 0)) radius with
              | None => default_radius n n c | Some r => r end in
     shape input = (n, n) -> 0 < n ->
     holds w0 input img -> holds w0 bg bgv ->
     win = Window y0 n x0 n ->
     exists w' fade,
       out = (Ok bg, w') /\
       scale_values (clamped_distances n n c r) (of_Z 0) (of_Z 1) = Ok fade /\
       (forall i j, i < n -> j < n ->
          entry w' bg (y0 + i) (x0 + j) =
            Some (composed_entry img bgv fade n C y0 x0 c r i j)) /\
       (forall i j, i < R -> j < C ->
          ~ (y0 <= i < y0 + n /\ x0 <= j < x0 + n) ->
          entry w' bg i j = entry w0 bg i j)).
Proof.
  intros x y R C win out. split; [|split].
  - intros r Hr. pose proof (wp_create_composition input bg xo yo center radius w0) as Hwp.
    unfold wp in Hwp. fold out in Hwp. destruct out as [[r'|e] w']; simpl in Hr.
    + injection Hr as <-. exact Hwp.
    + discriminate.
  - apply create_composition_touches.
  - intros n img bgv y0 x0 c r Hshape Hn Himg Hbg Hwin.
    unfold win in Hwin. rewrite Hshape in Hwin. cbn [fst snd] in Hwin.
    destruct (create_composition_window w0 input bg xo yo center radius n img bgv y0 x0
                Hshape Hn Himg Hbg Hwin)
      as (w' & fade & Hrun & Hfade & Hin & Hout & _).
    exists w', fade. auto.
Qed.

End Composition.

Lemma create_composition_frame_witness :
  exists w',
    create_composition example_image example_background
      (Passed 1%Z) (Passed 0%Z) (Passed None) (Passed None) example_world =
      (Ok example_background, w') /\
    entry w' example_background 3 0 = entry example_world example_background 3 0.
Proof.
  destruct (create_composition_frame example_world example_image example_background
              (Passed 1%Z) (Passed 0%Z) (Passed None) (Passed None))
    as (_ & _ & Hwindow).
  destruct (Hwindow 3 (mdata image_3x3) (mdata background_4x4) 0 1)
    as (w' & fade & Hrun & _ & _ & Hout).
  - reflexivity.
  - lia.
  - exists (mdata image_3x3). split; [reflexivity|]. split; [simpl; lia | reflexivity].
  - exists (mdata background_4x4). split; [reflexivity|]. split; [simpl; lia | reflexivity].
  - reflexivity.
  - exists w'. split; [exact Hrun|]. apply Hout; simpl; lia.
Defined.


(** ** create_composition on a concrete image *)

Section Evaluation.

(** C1.  With radius 1 around the center (1, 1) of the 3 x 3 image, the
    center pixel lies strictly inside the disk.  The frame that
    create_composition returns holds 10 there, twice the pixel 5 of the
    input image: [out_image] is the whole input image, not its exterior
    part, so the interior is added twice. *)
Theorem create_composition_interior_doubled :
  let r := create_composition example_image example_background
             (Passed 0%Z) (Passed 0%Z) (Passed (Some (1, 1)%Z))
             (Passed (Some (F64.of_Z 1))) example_world in
  fst r = Ok example_background /\
  entry example_world example_image 1 1 = Some (F64.of_Z 5) /\
  entry (snd r) example_background 1 1 = Some (F64.of_Z 10) /\
  SFltb (sqrt (F64.of_Z ((1 - 1) ^ 2 + (1 - 1) ^ 2))) (F64.of_Z 1) = true.
Proof. vm_compute. repeat split; reflexivity. Qed.

End Evaluation.

(** ** create_2D_noise and create_new_dataset *)

Section DatasetFacts.
Context {A : Type} {SA : Scalar A} {SQ : Sqrt A} {EX : External A}.

Lemma length_py_range a b : length (py_range a b) = Z.to_nat (b - a).
Proof. unfold py_range. rewrite length_map, length_seq. reflexivity. Qed.

Lemma length_frequencies d : 0 < d -> length (frequencies d) = d.
Proof.
  intros Hd. unfold frequencies. rewrite length_map, length_app, !length_py_range.
  pose proof (Nat.div_mod_eq d 2). pose proof (Nat.div_mod_eq (d + 1) 2).
  pose proof (Nat.mod_upper_bound d 2). pose proof (Nat.mod_upper_bound (d + 1) 2).
  lia.
Qed.

Lemma broadcast_shape_mismatch d0 d1 :
  2 <= d0 -> 2 <= d1 -> d0 <> d1 -> broadcast_shape (d1, d0) (d0, d1) = None.
Proof.
  intros H0 H1 Hne. unfold broadcast_shape, broadcast_dim. cbn [fst snd].
  destruct (Nat.eqb_spec d1 d0); [congruence|].
  destruct (Nat.eqb_spec d1 1); [lia|].
  destruct (Nat.eqb_spec d0 1); [lia|]. reflexivity.
Qed.

Lemma length_concat_replicate {T} (l : list T) n :
  length (concat (replicate n l)) = n * length l.
Proof. induction n as [|n IH]; simpl; [reflexivity|]. rewrite length_app, IH. reflexivity. Qed.

Lemma length_repmat {T} (v : list T) m n :
  length (mdata (repmat v m n)) = m * (length v * n).
Proof.
  unfold repmat. cbn [mdata]. rewrite length_concat_replicate, length_concat_replicate. lia.
Qed.

Lemma reshape_ok {T} (m : matrix T) s :
  length (mdata m) = fst s * snd s -> reshape m s = Ok (Matrix s (mdata m)).
Proof. intros Hl. unfold reshape. rewrite Hl, Nat.eqb_refl. reflexivity. Qed.

(** C3.  On a grid that is not square (both sides at least 2)
    create_2D_noise does not return: the frequency field [u] has the
    transposed shape of [v], the two cannot be broadcast together, and the
    sum raises ValueError.  The docstring promises a 10 x 5 grid for
    [dim_array = [10, 5]]. *)
Theorem create_2D_noise_nonsquare (w : world A) (d0 d1 : nat) (beta : arg A) :
  2 <= d0 -> 2 <= d1 -> d0 <> d1 ->
  create_2D_noise (Passed (d0, d1)) beta w = (Raise ValueError, w).
Proof.
  intros H0 H1 Hne. unfold create_2D_noise. cbn [with_default fst snd].
  erewrite bind_lift_ok
    by (apply reshape_ok; rewrite length_repmat, length_frequencies by lia; cbn [fst snd]; lia).
  erewrite bind_lift_ok
    by (apply reshape_ok; rewrite length_repmat, length_frequencies by lia; cbn [fst snd]; lia).
  unfold broadcast2, transpose. cbn [mshape mmap].
  rewrite broadcast_shape_mismatch by assumption. reflexivity.
Qed.

(** C2.  With rotate enabled and at least one row of square length,
    create_new_dataset does not return: it calls rotate_image with the
    keyword [rot], which is not a parameter of rotate_image ([image],
    [angle]), and the call raises TypeError before any rotation. *)
Theorem create_new_dataset_rotate_raises (w : world A) (b : positive) (o m k : nat)
    (offsets : arg (list (Z * Z))) (degree : arg (option Z)) :
  fst (create_new_dataset (NdArray b o (S m, k * k)) offsets (Passed true) degree w) =
    Raise TypeError.
Proof.
  unfold create_new_dataset. cbn [with_default shape].
  rewrite Nat.sqrt_square.
  erewrite bind_ok by (unfold np_zeros; apply new_array_run).
  erewrite bind_raise; [reflexivity|].
  cbn [seq for_each]. erewrite bind_raise; [reflexivity|].
  unfold reshape_row. cbn [shape fst snd]. rewrite Nat.eqb_refl.
  erewrite bind_ok by reflexivity.
  erewrite bind_raise; [reflexivity|].
  unfold call_rotate_image. erewrite bind_raise; [reflexivity|].
  reflexivity.
Qed.

Lemma wp_scale_2D (data : ndarray) sr w :
  wp (scale_2D data sr) (fun out _ => shape out = shape data) w.
Proof.
  unfold wp. destruct (holds_or_not w data) as [[vals Hh]|Hno].
  - rewrite (scale_2D_run w data sr vals Hh). cbv zeta.
    destruct (scale_values vals _ _); [reflexivity | exact I].
  - rewrite (scale_2D_invalid w data sr Hno). exact I.
Qed.

Lemma mmap_Matrix {T U} (f : T -> U) s l : mmap f (Matrix s l) = Matrix s (map f l).
Proof. reflexivity. Qed.

(** On a square grid create_2D_noise returns a fresh array of that shape,
    having drawn one phase per entry. *)
Lemma create_2D_noise_square (w : world A) (d : nat) (beta : arg A) :
  0 < d ->
  exists vals,
    create_2D_noise (Passed (d, d)) beta w =
      (Ok (NdArray (fresh (dom (heap w))) 0 (d, d)),
       World (<[fresh (dom (heap w)) := vals]> (heap w)) (rng w + d * d)).
Proof.
  intros Hd. unfold create_2D_noise. cbn [with_default fst snd].
  erewrite bind_lift_ok
    by (apply reshape_ok; rewrite length_repmat, length_frequencies by lia; cbn [fst snd]; lia).
  erewrite bind_lift_ok
    by (apply reshape_ok; rewrite length_repmat, length_frequencies by lia; cbn [fst snd]; lia).
  cbn [transpose mshape]. rewrite !mmap_Matrix.
  rewrite broadcast2_same. erewrite bind_lift_ok by reflexivity.
  erewrite bind_ok by reflexivity.
  rewrite !mmap_Matrix.
  rewrite broadcast2_same. erewrite bind_lift_ok by reflexivity.
  unfold np_fft_ifft2. cbn [mshape mdata fst snd].
  destruct (Nat.eqb_spec d 0); [lia|]. cbn [orb].
  erewrite bind_lift_ok by reflexivity.
  rewrite new_array_run. cbn [mmap mshape mdata heap rng].
  eexists. reflexivity.
Qed.

Lemma wp_create_2D_noise_default w :
  wp (create_2D_noise Omitted Omitted) (fun a _ => shape a = (56, 56)) w.
Proof.
  unfold wp.
  destruct (create_2D_noise_square w 56 Omitted ltac:(lia)) as [vals Hrun].
  change (create_2D_noise Omitted Omitted w) with (create_2D_noise (Passed (56, 56)) Omitted w).
  rewrite Hrun. reflexivity.
Qed.

Lemma wp_flatten (a : ndarray) w :
  wp (flatten a)
     (fun l w' => exists buf : list A, heap w' !! l = Some buf /\
                                       length buf = fst (shape a) * snd (shape a)) w.
Proof.
  unfold wp. destruct (holds_or_not w a) as [[vals Hh]|Hno].
  - rewrite (flatten_run w a vals Hh). exists vals. cbn [heap].
    rewrite lookup_insert_eq. split; [reflexivity | apply (holds_length w a vals Hh)].
  - unfold flatten. erewrite bind_raise by (apply read_view_fails, Hno). exact I.
Qed.

Lemma wp_setitem_row (a : ndarray) i flat (buf : list A) w :
  heap w !! flat = Some buf ->
  length buf <> snd (shape a) -> length buf <> 1 ->
  wp (setitem_row a i flat) (fun _ _ => False) w.
Proof.
  intros Hl Hne H1. unfold wp, setitem_row.
  erewrite bind_ok by (apply load_run, Hl).
  unfold write_window, bind, load.
  destruct (heap w !! base a); [|exact I].
  unfold assignable. cbn [mshape fst snd w_nr w_nc].
  destruct (Nat.eqb_spec (length buf) (snd (shape a))); [contradiction|].
  destruct (Nat.eqb_spec (length buf) 1); [contradiction|].
  cbn. exact I.
Qed.

(** C4.  For a dataset with at least one row whose length N is not 784,
    create_new_dataset does not return an array of shape (M, 4N): it
    raises.  The frame that create_composition returns is the 56 x 56
    noise background whatever N is, and its 3136 entries cannot be assigned
    to a row of 4N entries. *)
Theorem create_new_dataset_fixed_background (w : world A) (dataset : ndarray)
    (offsets : arg (list (Z * Z))) (rotate : arg bool) (degree : arg (option Z)) :
  0 < fst (shape dataset) -> snd (shape dataset) <> 784 ->
  exists e, fst (create_new_dataset dataset offsets rotate degree w) = Raise e.
Proof.
  intros Hm Hn. apply wp_never.
  unfold create_new_dataset. destruct (shape dataset) as [m n]. cbn [fst snd] in Hm, Hn.
  cbv zeta.
  apply wp_bind. unfold np_zeros. unfold wp at 1. rewrite new_array_run. cbn [mshape].
  set (new_dataset := NdArray _ 0 (m, n * 4)).
  apply wp_bind.
  destruct m as [|m]; [lia|]. cbn [seq for_each].
  apply wp_bind.
  apply (wp_conseq _ (fun _ _ => False)); [|intros ? ? []].
  apply wp_bind, wp_any; intros image0 w1.
  apply wp_bind, wp_any; intros image w2.
  apply wp_bind. eapply wp_conseq; [apply wp_create_2D_noise_default|].
  intros noise w3 Hnoise.
  apply wp_bind. eapply wp_conseq; [apply wp_scale_2D|].
  intros noise_bg w4 Hbg. rewrite Hnoise in Hbg.
  apply wp_bind, wp_any; intros rand_offset w5.
  apply wp_bind, wp_any; intros offset w6.
  apply wp_bind. eapply wp_conseq; [apply wp_create_composition|].
  intros result w7 ->.
  apply wp_bind. eapply wp_conseq; [apply wp_flatten|].
  intros flat w8 (buf & Hflat & Hlen). rewrite Hbg in Hlen. cbn [fst snd] in Hlen.
  apply (wp_setitem_row new_dataset 0 flat buf w8 Hflat).
  - subst new_dataset. cbn [shape snd]. lia.
  - lia.
Qed.

End DatasetFacts.

(** ** The radius argument of create_composition *)

Section Radius.
Context {A : Type} {SA : Scalar A} {SQ : Sqrt A}.

Lemma bind_ext {X Y} (m : M A X) (k1 k2 : X -> M A Y) w :
  (forall x w', k1 x w' = k2 x w') -> bind m k1 w = bind m k2 w.
Proof. intros Hk. unfold bind. destruct (m w) as [[x|e] w']; [apply Hk | reflexivity]. Qed.

Lemma bind_cong_l {X Y} (m1 m2 : M A X) (k : X -> M A Y) w :
  m1 w = m2 w -> bind m1 k w = bind m2 k w.
Proof. intros Hm. unfold bind. rewrite Hm. reflexivity. Qed.

Lemma for_each_ext {X} (l : list X) (f g : X -> M A unit) w :
  (forall x w', f x w' = g x w') -> for_each l f w = for_each l g w.
Proof.
  intros Hfg. revert w; induction l as [|x l IH]; intros w; simpl; [reflexivity|].
  unfold bind. rewrite Hfg. destruct (g x w) as [[u|e] w']; [apply IH | reflexivity].
Qed.

Lemma create_composition_radius_None (w0 : world A) input bg xo yo center :
  create_composition input bg xo yo center (Passed None) w0 =
  create_composition input bg xo yo center
    (Passed (Some (default_radius (fst (shape input)) (snd (shape input))
                     (match with_default None center with
                      | None => default_center (fst (shape input)) (snd (shape input))
                      | Some c => c
                      end)))) w0.
Proof. unfold create_composition. destruct (shape input) as [wd ht]. reflexivity. Qed.

Lemma create_composition_radius_omitted (w0 : world A) input bg xo yo center :
  create_composition input bg xo yo center Omitted w0 =
  create_composition input bg xo yo center (Passed (Some (of_Z 0))) w0.
Proof. reflexivity. Qed.

Context {EX : External A}.

Lemma create_new_dataset_call_site (w0 : world A) dataset offsets rotate degree :
  create_new_dataset dataset offsets rotate degree w0 =
  create_new_dataset_computed_radius dataset offsets rotate degree w0.
Proof.
  unfold create_new_dataset, create_new_dataset_computed_radius.
  destruct (shape dataset) as [m n]. cbv zeta.
  apply bind_ext; intros new_dataset w1.
  apply bind_cong_l. apply for_each_ext; intros i w2.
  apply bind_ext; intros image0 w3.
  apply bind_ext; intros image w4.
  apply bind_ext; intros noise w5.
  apply bind_ext; intros noise_bg w6.
  apply bind_ext; intros rand_offset w7.
  apply bind_ext; intros offset w8.
  destruct (shape image) as [wd ht] eqn:Hs.
  apply bind_cong_l.
  rewrite create_composition_radius_None, Hs. reflexivity.
Qed.
End Radius.

(** C6.  The radius argument of create_composition.  Passing [None] is
    passing the minimum of center[0], center[1], w - center[0] and
    h - center[1]; leaving the argument out is passing 0, which is not the
    computed default: on the 3 x 3 image the mask of radius 0 selects the
    center alone, and the frame differs from the one composed with [None].
    create_new_dataset passes [None], and so is the function that passes
    the computed default. *)
Theorem create_composition_radius_argument :
  (forall (A : Type) (SA : Scalar A) (SQ : Sqrt A) (w0 : world A)
          (input bg : ndarray) (xo yo : arg Z) (center : arg (option (Z * Z))),
     let wd := fst (shape input) in
     let ht := snd (shape input) in
     let c := match with_default None center with
              | None => default_center wd ht | Some c => c end in
     create_composition input bg xo yo center (Passed None) w0 =
       create_composition input bg xo yo center
         (Passed (Some (of_Z (Z.min (Z.min (Z.min (fst c) (snd c))
                                       (Z.of_nat wd - fst c))
                                (Z.of_nat ht - snd c))))) w0 /\
     create_composition input bg xo yo center Omitted w0 =
       create_composition input bg xo yo center (Passed (Some (of_Z 0))) w0) /\
  (forall (A : Type) (SA : Scalar A) (SQ : Sqrt A) (EX : External A) (w0 : world A)
          (dataset : ndarray) (offsets : arg (list (Z * Z))) (rotate : arg bool)
          (degree : arg (option Z)),
     create_new_dataset dataset offsets rotate degree w0 =
       create_new_dataset_computed_radius dataset offsets rotate degree w0) /\
  mdata (mmap (fun d => leb d (F64.of_Z 0)) (dist_from_center 3 3 (1, 1)%Z)) =
    [false; false; false; false; true; false; false; false; false] /\
  (let omitted := create_composition example_image example_background
                    (Passed 0%Z) (Passed 0%Z) (Passed None) Omitted example_world in
   let none := create_composition example_image example_background
                 (Passed 0%Z) (Passed 0%Z) (Passed None) (Passed None) example_world in
   entry (snd none) example_background 0 1 = Some (F64.of_Z 4) /\
   entry (snd omitted) example_background 0 1 <> Some (F64.of_Z 4)).
Proof.
  split; [|split; [|split]].
  - intros A SA SQ w0 input bg xo yo center wd ht c. split.
    + apply create_composition_radius_None.
    + apply create_composition_radius_omitted.
  - intros. apply create_new_dataset_call_site.
  - vm_compute. reflexivity.
  - vm_compute. split; [reflexivity | discriminate].
Qed.

(** ** The failing inputs *)

Lemma create_2D_noise_nonsquare_witness :
  create_2D_noise (EX := sample_external) (Passed (10, 5)) Omitted empty_world =
    (Raise ValueError, empty_world).
Proof.
  apply (create_2D_noise_nonsquare (EX := sample_external) empty_world 10 5 Omitted); lia.
Defined.

(** A grid with a side of length 1 is not refused: the two frequency
    fields are broadcast against each other, and the result is square. *)
Lemma create_2D_noise_1x5_shape :
  fst (create_2D_noise (EX := sample_external) (Passed (1, 5)) Omitted empty_world) =
    Ok (NdArray 1 0 (5, 5)).
Proof. vm_compute. reflexivity. Qed.

Lemma create_new_dataset_fixed_background_witness :
  exists e,
    fst (create_new_dataset (EX := sample_external) (NdArray 1 0 (1, 4))
           Omitted Omitted Omitted dataset_1x4) = Raise e.
Proof.
  apply (create_new_dataset_fixed_background (EX := sample_external)
           dataset_1x4 (NdArray 1 0 (1, 4)) Omitted Omitted Omitted); simpl; lia.
Defined.

(** On the dataset of one 2 x 2 image the exception is the ValueError of
    the row assignment. *)
Lemma create_new_dataset_1x4_raises :
  fst (create_new_dataset (EX := sample_external) (NdArray 1 0 (1, 4))
         Omitted Omitted Omitted dataset_1x4) = Raise ValueError.
Proof. vm_compute. reflexivity. Qed.

(** ** scale_2D: when it returns *)

Section ScaleGeneric.
Context {A : Type} {SA : Scalar A}.

(** X1.  scale_2D returns exactly when the field has an entry.  On a field
    without entries np.min raises ValueError.  On every other field the
    call returns an array of the shape of its argument, in a buffer that
    did not exist before the call, with as many entries as the field, and
    no random number is drawn. *)
Theorem scale_2D_returns_iff_nonempty (w : world A) (data : ndarray) (sr : arg (A * A))
    (vals : list A) :
  holds w data vals ->
  (vals = [] -> fst (scale_2D data sr w) = Raise ValueError) /\
  (vals <> [] ->
   exists out w' vals',
     scale_2D data sr w = (Ok out, w') /\
     shape out = shape data /\
     heap w !! base out = None /\
     holds w' out vals' /\
     length vals' = length vals /\
     rng w' = rng w).
Proof.
  intros Hh. rewrite (scale_2D_run w data sr vals Hh). cbv zeta. split.
  - intros ->. reflexivity.
  - intros Hne.
    destruct (scale_values_nonempty vals
                (fst (with_default (of_Z 0, of_Z 255) sr))
                (snd (with_default (of_Z 0, of_Z 255) sr)) Hne) as (out & Hout & Hlen).
    rewrite Hout. eexists _, _, out. split; [reflexivity|]. split; [reflexivity|].
    split; [apply fresh_lookup|]. split; [|split; [exact Hlen | reflexivity]].
    apply holds_fresh. rewrite Hlen. apply (holds_length w data vals Hh).
Qed.
End ScaleGeneric.

Lemma scale_2D_returns_iff_nonempty_witness :
  exists out w' vals',
    scale_2D (NdArray 1 0 (2, 2)) Omitted constant_2x2 = (Ok out, w') /\
    shape out = (2, 2) /\
    heap constant_2x2 !! base out = None /\
    holds w' out vals' /\
    length vals' = 4 /\
    rng w' = 0.
Proof.
  destruct (scale_2D_returns_iff_nonempty constant_2x2 (NdArray 1 0 (2, 2)) Omitted
              (replicate 4 (F64.of_Z 7))) as [_ Hreturns].
  - exists (replicate 4 (F64.of_Z 7)).
    split; [reflexivity|]. split; [simpl; lia | reflexivity].
  - apply Hreturns. discriminate.
Defined.

(** ** Values that are not numbers *)

Section Binary64More.

Lemma f64_minimum_nan_l (b : F64.t) : F64.minimum S754_nan b = S754_nan.
Proof. reflexivity. Qed.

Lemma f64_minimum_nan_r (a : F64.t) : F64.minimum a S754_nan = S754_nan.
Proof. destruct a as [s|s| |s m e]; try reflexivity; destruct s; reflexivity. Qed.

Lemma fold_minimum_nan (l : list F64.t) : fold_left F64.minimum l S754_nan = S754_nan.
Proof. induction l as [|x l IH]; simpl; [reflexivity | exact IH]. Qed.

Lemma fold_minimum_has_nan (l : list F64.t) (x : F64.t) :
  In S754_nan (x :: l) -> fold_left F64.minimum l x = S754_nan.
Proof.
  revert x; induction l as [|y l IH]; intros x Hin.
  - destruct Hin as [Hx|[]]. subst x. reflexivity.
  - simpl. destruct Hin as [Hx|[Hy|Hin]].
    + subst x. apply fold_minimum_nan.
    + subst y. rewrite f64_minimum_nan_r. apply fold_minimum_nan.
    + apply IH. right. exact Hin.
Qed.

Lemma f64_add_nan_r (a : F64.t) : F64.add a S754_nan = S754_nan.
Proof. destruct a as [s|s| |s m e]; reflexivity. Qed.

Lemma map_to_constant {T U} (g : T -> U) (c : U) (l : list T) :
  (forall x, g x = c) -> map g l = replicate (length l) c.
Proof.
  intros Hg. induction l as [|x l IH]; simpl; [reflexivity|]. rewrite Hg, IH. reflexivity.
Qed.

(** X5.  In binary64, a single NaN entry makes the whole result NaN: np.min
    returns NaN, the shift turns every entry into NaN, and the call returns
    a field of the same shape whose entries are all NaN. *)
Theorem scale_2D_nan_spreads (w : world F64.t) (data : ndarray)
    (sr : arg (F64.t * F64.t)) (vals : list F64.t) :
  holds w data vals -> In S754_nan vals ->
  exists out w',
    scale_2D data sr w = (Ok out, w') /\
    shape out = shape data /\
    holds w' out (replicate (length vals) S754_nan).
Proof.
  intros Hh Hin.
  rewrite (scale_2D_run w data sr vals Hh). cbv zeta.
  set (lo := fst (with_default (of_Z 0, of_Z 255) sr)).
  set (hi := snd (with_default (of_Z 0, of_Z 255) sr)).
  assert (Hsv : scale_values vals lo hi = Ok (replicate (length vals) S754_nan)).
  { destruct vals as [|x xs]; [destruct Hin|].
    unfold scale_values. cbn [reduce]. change minimum with F64.minimum.
    rewrite (fold_minimum_has_nan xs x Hin). cbv zeta.
    rewrite (map_to_constant (fun v => add v (neg S754_nan)) S754_nan)
      by (intros v; apply f64_add_nan_r).
    cbn [length replicate reduce].
    rewrite (fold_constant maximum S754_nan)
      by (try reflexivity; apply Forall_forall; intros v Hv;
          apply elem_of_replicate in Hv; tauto).
    change (S754_nan :: replicate (length xs) S754_nan)
      with (replicate (S (length xs)) (S754_nan : F64.t)).
    rewrite !map_replicate_const. reflexivity. }
  rewrite Hsv. eexists _, _. split; [reflexivity|]. split; [reflexivity|].
  apply holds_fresh. rewrite length_replicate. apply (holds_length w data vals Hh).
Qed.

Lemma scale_2D_nan_spreads_witness :
  exists out w',
    scale_2D (NdArray 1 0 (1, 2)) Omitted field_with_nan = (Ok out, w') /\
    shape out = (1, 2) /\
    holds w' out [S754_nan; S754_nan].
Proof.
  apply (scale_2D_nan_spreads field_with_nan (NdArray 1 0 (1, 2)) Omitted
           [F64.of_Z 1; S754_nan]).
  - eexists. split; [reflexivity|]. split; [simpl; lia | reflexivity].
  - right. left. reflexivity.
Defined.


Lemma in_tabulate {T} (f : nat -> nat -> T) r c x :
  In x (tabulate r c f) -> exists i j, i < r /\ j < c /\ x = f i j.
Proof.
  unfold tabulate. intros Hin. apply in_flat_map in Hin as (i & Hi & Hx).
  apply in_map_iff in Hx as (j & <- & Hj).
  apply in_seq in Hi. apply in_seq in Hj. exists i, j. repeat split; lia.
Qed.

Lemma nth_replicate_inside {T} (c d : T) n k : k < n -> nth k (replicate n c) d = c.
Proof.
  revert k; induction n as [|n IH]; intros k Hk; [lia|].
  destruct k as [|k]; simpl; [reflexivity | apply IH; lia].
Qed.

Lemma f64_mul_nan_r (a : F64.t) : F64.mul a S754_nan = S754_nan.
Proof. destruct a as [s|s| |s m e]; reflexivity. Qed.

(** X6.  In binary64, when the disk covers the whole image (every pixel is
    within [radius] of the center), the distances handed to scale_2D are
    all equal to the radius, the rescaled fade is 0/0, and every entry that
    create_composition writes to the window of the background is NaN. *)
Theorem create_composition_covering_disk_nan (w0 : world F64.t) (input bg : ndarray)
    (xo yo : arg Z) (center : arg (option (Z * Z))) (radius : arg (option F64.t))
    (n : nat) (img bgv : list F64.t) (y0 x0 : nat) :
  let x := with_default 0%Z xo in
  let y := with_default 0%Z yo in
  let c := match with_default None center with
           | None => default_center n n | Some c => c end in
  let r := match with_default (Some (of_Z 0)) radius with
           | None => default_radius n n c | Some r => r end in
  shape input = (n, n) -> 0 < n ->
  holds w0 input img -> holds w0 bg bgv ->
  slice2 (shape bg) y (y + Z.of_nat n) x (x + Z.of_nat n) = Window y0 n x0 n ->
  (forall i j, i < n -> j < n ->
     leb (sqrt (of_Z ((Z.of_nat j - fst c) ^ 2 + (Z.of_nat i - snd c) ^ 2))) r = true) ->
  exists w',
    create_composition input bg xo yo center radius w0 = (Ok bg, w') /\
    forall i j, i < n -> j < n -> entry w' bg (y0 + i) (x0 + j) = Some S754_nan.
Proof.
  intros x y c r Hshape Hn Himg Hbg Hwin Hcover.
  destruct (create_composition_window w0 input bg xo yo center radius n img bgv y0 x0
              Hshape Hn Himg Hbg Hwin)
    as (w' & fade & Hrun & Hfade & Hin & _).
  fold x y c r in Hfade, Hin.
  assert (Hconst : Forall (fun v => v = r) (clamped_distances n n c r)).
  { apply Forall_forall. intros v Hv. apply list_elem_of_In in Hv.
    unfold clamped_distances in Hv. apply in_map_iff in Hv as (d & <- & Hd).
    cbn [dist_from_center mdata] in Hd.
    apply in_tabulate in Hd as (i & j & Hi & Hj & ->).
    rewrite (Hcover i j Hi Hj). reflexivity. }
  assert (Hne : clamped_distances n n c r <> []).
  { intros Hnil. pose proof (length_clamped n c r) as L. rewrite Hnil in L. simpl in L. nia. }
  destruct (scale_values_constant _ r (of_Z 0) (of_Z 1) Hne Hconst) as (_ & _ & Hsv).
  rewrite Hsv in Hfade. injection Hfade as <-. rewrite length_clamped in Hin.
  exists w'. split; [exact Hrun|].
  intros i j Hi Hj. rewrite (Hin i j Hi Hj). f_equal.
  unfold composed_entry. cbv zeta. rewrite (Hcover i j Hi Hj).
  rewrite nth_replicate_inside by nia.
  change (F64.add (F64.add (F64.mul (nth ((y0 + i) * snd (shape bg) + (x0 + j)) bgv (of_Z 0))
                              S754_nan) (nth (i * n + j) img (of_Z 0)))
            (nth (i * n + j) img (of_Z 0)) = S754_nan).
  rewrite f64_mul_nan_r. reflexivity.
Qed.

Lemma create_composition_covering_disk_nan_witness :
  exists w',
    create_composition example_image example_background
      (Passed 1%Z) (Passed 0%Z) (Passed None) (Passed (Some (F64.of_Z 2))) example_world =
      (Ok example_background, w') /\
    forall i j, i < 3 -> j < 3 ->
      entry w' example_background (0 + i) (1 + j) = Some S754_nan.
Proof.
  apply (create_composition_covering_disk_nan example_world example_image
           example_background (Passed 1%Z) (Passed 0%Z) (Passed None)
           (Passed (Some (F64.of_Z 2))) 3 (mdata image_3x3) (mdata background_4x4) 0 1).
  - reflexivity.
  - lia.
  - exists (mdata image_3x3). split; [reflexivity|]. split; [simpl; lia | reflexivity].
  - exists (mdata background_4x4). split; [reflexivity|]. split; [simpl; lia | reflexivity].
  - reflexivity.
  - intros i j Hi Hj.
    destruct i as [|[|[|i]]]; [| | |lia];
      (destruct j as [|[|[|j]]]; [| | |lia]); vm_compute; reflexivity.
Defined.

End Binary64More.

(** ** scale_2D in binary64: rounding, overflow and the range reached *)

(** No rounding of a non-negative mantissa is NaN. *)
Section Rounding.
Variables (p em : Z).











End Rounding.









Lemma f64_sub_zero (s : bool) (m : positive) (e : Z) :
  F64.sub (S754_finite s m e) (F64.of_Z 0) = S754_finite s m e.
Proof. reflexivity. Qed.

Section ScaleClosedForm.
Context {A : Type} {SA : Scalar A}.



End ScaleClosedForm.

Section Binary64Range.

















End Binary64Range.

(** ** When create_composition returns *)

Section Returns.
Context {A : Type} {SA : Scalar A} {SQ : Sqrt A}.

Lemma bind_ok_inv {X Y} (m : M A X) (k : X -> M A Y) w r :
  fst (bind m k w) = Ok r ->
  exists x w1, m w = (Ok x, w1) /\ fst (k x w1) = Ok r.
Proof.
  unfold bind. destruct (m w) as [[x|e] w1]; simpl; [eauto | discriminate].
Qed.

Lemma read_view_inv (w w' : world A) a m :
  read_view a w = (Ok m, w') -> w' = w /\ mshape m = shape a /\ holds w a (mdata m).
Proof.
  destruct (holds_or_not w a) as [[vals Hh]|Hno].
  - rewrite (read_view_holds w a vals Hh). intros [= <- <-]. auto.
  - rewrite (read_view_fails w a Hno). discriminate.
Qed.

Lemma ma_array_inv {T} (data : matrix T) (mask : matrix bool) x :
  ma_array data mask = Ok x -> ma_data x = data.
Proof.
  unfold ma_array. destruct (decide _); [intros [= <-]; reflexivity|].
  destruct (msize mask =? 1); [intros [= <-]; reflexivity|].
  destruct (msize mask =? msize data); [intros [= <-]; reflexivity | discriminate].
Qed.

Lemma scale_2D_ok_inv (w w' : world A) data sr out :
  scale_2D data sr w = (Ok out, w') ->
  shape out = shape data /\ fst (shape data) * snd (shape data) <> 0.
Proof.
  destruct (holds_or_not w data) as [[vals Hh]|Hno].
  - rewrite (scale_2D_run w data sr vals Hh). cbv zeta.
    pose proof (holds_length w data vals Hh) as Hlen.
    destruct vals as [|v vals]; [discriminate|].
    destruct (scale_values _ _ _); [|discriminate].
    intros [= <- _]. split; [reflexivity|]. simpl in Hlen. lia.
  - rewrite (scale_2D_invalid w data sr Hno). discriminate.
Qed.

Lemma read_window_inv (w w' : world A) a win m :
  read_window a win w = (Ok m, w') -> mshape m = (w_nr win, w_nc win).
Proof.
  unfold read_window, bind. destruct (read_view a w) as [[v|e] w1]; [|discriminate].
  intros [= <- _]. reflexivity.
Qed.

Lemma broadcast2_inv {T U V} (dt : T) (du : U) (f : T -> U -> V) a b r :
  broadcast2 dt du f a b = Ok r -> broadcast_shape (mshape a) (mshape b) = Some (mshape r).
Proof.
  unfold broadcast2. destruct (broadcast_shape _ _) as [[rr cc]|]; [|discriminate].
  intros [= <-]. reflexivity.
Qed.

Lemma ma_radd_inv (a : matrix A) (b : masked A) r :
  ma_radd a b = Ok r ->
  broadcast_shape (mshape a) (mshape (ma_data b)) = Some (mshape (ma_data r)).
Proof.
  unfold ma_radd.
  destruct (broadcast2 _ _ _ _ _) as [m|e] eqn:Hb; [|discriminate].
  intros [= <-]. apply broadcast2_inv in Hb. exact Hb.
Qed.

Lemma write_window_ok_inv (w : world A) a win v u w' :
  write_window a win v w = (Ok u, w') ->
  assignable (mshape v) (w_nr win, w_nc win) = true.
Proof.
  unfold write_window, bind, load. destruct (heap w !! base a); [|discriminate].
  destruct (assignable _ _); [reflexivity | discriminate].
Qed.

Lemma broadcast_dim_inv a b c :
  broadcast_dim a b = Some c -> (a = c \/ a = 1) /\ (b = c \/ b = 1).
Proof.
  unfold broadcast_dim.
  destruct (Nat.eqb_spec a b); [intros [= <-]; subst; auto|].
  destruct (Nat.eqb_spec a 1); [intros [= <-]; auto|].
  destruct (Nat.eqb_spec b 1); [intros [= <-]; auto | discriminate].
Qed.

Lemma broadcast_shape_inv s1 s2 s :
  broadcast_shape s1 s2 = Some s ->
  broadcast_dim (fst s1) (fst s2) = Some (fst s) /\
  broadcast_dim (snd s1) (snd s2) = Some (snd s).
Proof.
  unfold broadcast_shape.
  destruct (broadcast_dim (fst s1) (fst s2)), (broadcast_dim (snd s1) (snd s2));
    try discriminate.
  intros [= <-]. auto.
Qed.

Lemma slice_axis_count (len : nat) (start : Z) (k : nat) :
  snd (slice_axis len start (start + Z.of_nat k)) <= k.
Proof.
  unfold slice_axis, slice_norm. cbn [snd].
  destruct (Z.ltb_spec start 0), (Z.ltb_spec (start + Z.of_nat k) 0); lia.
Qed.

Lemma one_or_step (p q n : nat) : p = q \/ p = 1 -> q = n \/ q = 1 -> p = n \/ p = 1.
Proof. lia. Qed.

(** The sides that a chain of three broadcasts and the final assignment
    leave to an image axis of length [h] (from the rescaled distances) and
    [w] (from the image) against a window axis of length [k]. *)
Lemma broadcast_chain (k h w a b c : nat) :
  (k = a \/ k = 1) /\ (h = a \/ h = 1) ->
  (a = b \/ a = 1) /\ (w = b \/ w = 1) ->
  (b = c \/ b = 1) /\ (w = c \/ w = 1) ->
  c = k \/ c = 1 ->
  (h = k \/ h = 1) /\ (w = k \/ w = 1).
Proof.
  intros [_ Hh] [Ha Hw] [Hb _] Hc.
  pose proof (one_or_step b c k Hb Hc) as Hbk.
  pose proof (one_or_step a b k Ha Hbk) as Hak.
  split; [exact (one_or_step h a k Hh Hak) | exact (one_or_step w b k Hw Hbk)].
Qed.

(** X7.  create_composition returns only for a square input image with at
    least one pixel, and, unless the image is a single pixel, only when the
    window of the background at the offsets has the size of the image: a
    window that the border of the background clips makes the call raise. *)
Theorem create_composition_returns_only (w0 : world A) (input bg : ndarray)
    (xo yo : arg Z) (center : arg (option (Z * Z))) (radius : arg (option A))
    (r : ndarray) :
  let x := with_default 0%Z xo in
  let y := with_default 0%Z yo in
  let win := slice2 (shape bg) y (y + Z.of_nat (fst (shape input)))
               x (x + Z.of_nat (snd (shape input))) in
  fst (create_composition input bg xo yo center radius w0) = Ok r ->
  exists n, shape input = (n, n) /\ 0 < n /\
            (n = 1 \/ (w_nr win = n /\ w_nc win = n)).
Proof.
  intros x y win. unfold create_composition.
  destruct (shape input) as [wd ht] eqn:Hs. cbv zeta. fold x y. intros Hr.
  apply bind_ok_inv in Hr as (image & w1 & Himage & Hr).
  apply read_view_inv in Himage as (-> & Hishape & _). rewrite Hs in Hishape.
  apply bind_ok_inv in Hr as (circle_image & w2 & Hci & Hr).
  injection Hci as Hci <-. apply ma_array_inv in Hci.
  apply bind_ok_inv in Hr as (out_masked & w3 & Hom & Hr).
  injection Hom as Hom <-. apply ma_array_inv in Hom.
  apply bind_ok_inv in Hr as (out_mask & w4 & Hmk & Hr).
  injection Hmk as Hmk <-. apply ma_array_inv in Hmk.
  apply bind_ok_inv in Hr as (full & w5 & Hfull & Hr).
  rewrite new_array_run in Hfull. injection Hfull as <- <-.
  apply bind_ok_inv in Hr as (rescaled & w6 & Hsc & Hr).
  apply scale_2D_ok_inv in Hsc as (Hrshape & Hsize).
  cbn [shape ma_setitem_bool ma_data mshape] in Hrshape, Hsize.
  rewrite Hmk in Hrshape, Hsize. cbn [dist_from_center mshape fst snd] in Hrshape, Hsize.
  apply bind_ok_inv in Hr as (fade & w7 & Hfade & Hr).
  apply read_view_inv in Hfade as (-> & Hfshape & _). rewrite Hrshape in Hfshape.
  apply bind_ok_inv in Hr as (bgo & w8 & Hbgo & Hr).
  apply read_window_inv in Hbgo.
  apply bind_ok_inv in Hr as (faded & w9 & Hfd & Hr).
  injection Hfd as Hfd <-. apply broadcast2_inv in Hfd.
  apply bind_ok_inv in Hr as (bfade & w10 & Hbf & Hr).
  injection Hbf as Hbf <-. apply broadcast2_inv in Hbf.
  apply bind_ok_inv in Hr as (nii & w11 & Hnii & Hr).
  injection Hnii as Hnii <-. apply ma_radd_inv in Hnii.
  apply bind_ok_inv in Hr as (u & w12 & Hww & _).
  apply write_window_ok_inv in Hww.
  rewrite Hbgo, Hfshape in Hfd. rewrite Hom, Hishape in Hbf. rewrite Hci, Hishape in Hnii.
  apply broadcast_shape_inv in Hfd as [Hr1 Hc1].
  apply broadcast_shape_inv in Hbf as [Hr2 Hc2].
  apply broadcast_shape_inv in Hnii as [Hr3 Hc3].
  cbn [fst snd] in *.
  apply broadcast_dim_inv in Hr1, Hc1, Hr2, Hc2, Hr3, Hc3.
  unfold assignable in Hww. cbn [fst snd] in Hww.
  apply andb_prop in Hww as [Hwr Hwc].
  apply orb_prop in Hwr. apply orb_prop in Hwc.
  rewrite !Nat.eqb_eq in Hwr, Hwc.
  assert (Hnr : w_nr win <= wd).
  { unfold win, slice2. pose proof (slice_axis_count (fst (shape bg)) y wd) as Hc.
    destruct (slice_axis (fst (shape bg)) y (y + Z.of_nat wd)) as [r0 nr].
    destruct (slice_axis _ x _) as [c0 nc]. exact Hc. }
  assert (Hnc : w_nc win <= ht).
  { unfold win, slice2. pose proof (slice_axis_count (snd (shape bg)) x ht) as Hc.
    destruct (slice_axis (fst (shape bg)) y _) as [r0 nr].
    destruct (slice_axis (snd (shape bg)) x (x + Z.of_nat ht)) as [c0 nc]. exact Hc. }
  assert (Hwd : 0 < wd) by (clear - Hsize; nia).
  assert (Hht : 0 < ht) by (clear - Hsize; nia).
  pose proof (broadcast_chain (w_nr win) ht wd _ _ _ Hr1 Hr2 Hr3 Hwr) as [Hrh Hrw].
  pose proof (broadcast_chain (w_nc win) wd ht _ _ _ Hc1 Hc2 Hc3 Hwc) as [Hcw Hch].
  clear - Hrh Hrw Hcw Hch Hnr Hnc Hwd Hht.
  generalize dependent (w_nr win). generalize dependent (w_nc win). intros nc Hcw Hch Hnc nr Hrh Hrw Hnr.
  assert (Hwh : wd = ht) by lia. subst ht.
  exists wd. split; [reflexivity|]. split; [assumption|]. lia.
Qed.
End Returns.

Lemma create_composition_returns_only_witness :
  exists n, shape example_image = (n, n) /\ 0 < n /\
    (n = 1 \/
     (w_nr (slice2 (shape example_background) 0 (0 + Z.of_nat 3) 1 (1 + Z.of_nat 3)) = n /\
      w_nc (slice2 (shape example_background) 0 (0 + Z.of_nat 3) 1 (1 + Z.of_nat 3)) = n)).
Proof.
  apply (create_composition_returns_only (A := F64.t) example_world example_image example_background
           (Passed 1%Z) (Passed 0%Z) (Passed None) (Passed None) example_background).
  vm_compute. reflexivity.
Defined.

(** ** create_2D_noise on square and degenerate grids *)

Section NoiseMore.
Context {A : Type} {SA : Scalar A} {EX : External A}.

(** X8.  On a square grid of side d > 0 (the default grid is 56 x 56),
    create_2D_noise returns a d x d array in a buffer that did not exist
    before the call, leaves every existing buffer as it was, and draws
    exactly d * d random samples. *)
Theorem create_2D_noise_square_grid (w : world A) (dim_array : arg (nat * nat))
    (beta : arg A) (d : nat) :
  with_default (56, 56) dim_array = (d, d) -> 0 < d ->
  exists out w',
    create_2D_noise dim_array beta w = (Ok out, w') /\
    shape out = (d, d) /\
    heap w !! base out = None /\
    preserved w w' /\
    rng w' = rng w + d * d.
Proof.
  intros Hdim Hd.
  destruct (create_2D_noise_square w d beta Hd) as [vals Hrun].
  assert (Heq : create_2D_noise dim_array beta w = create_2D_noise (Passed (d, d)) beta w).
  { unfold create_2D_noise. rewrite Hdim. reflexivity. }
  rewrite Heq, Hrun. eexists _, _. split; [reflexivity|]. split; [reflexivity|].
  split; [apply fresh_lookup|]. split; [apply preserved_alloc | reflexivity].
Qed.

Lemma broadcast2_Matrix {T U V} (dt : T) (du : U) (f : T -> U -> V) s1 s2 s a b :
  broadcast_shape s1 s2 = Some s ->
  broadcast2 dt du f (Matrix s1 a) (Matrix s2 b) =
    Ok (Matrix s (tabulate (fst s) (snd s)
          (fun i j => f (bget dt (Matrix s1 a) i j) (bget du (Matrix s2 b) i j)))).
Proof.
  intros Hs. unfold broadcast2. cbn [mshape]. rewrite Hs. destruct s. reflexivity.
Qed.

Lemma broadcast_dim_1_l d : broadcast_dim 1 d = Some d.
Proof. unfold broadcast_dim. destruct (Nat.eqb_spec 1 d); [subst|]; reflexivity. Qed.

Lemma broadcast_dim_1_r d : broadcast_dim d 1 = Some d.
Proof.
  unfold broadcast_dim. destruct (Nat.eqb_spec d 1); [reflexivity|].
  rewrite Nat.eqb_refl. reflexivity.
Qed.

Lemma broadcast_dim_same d : broadcast_dim d d = Some d.
Proof. unfold broadcast_dim. rewrite Nat.eqb_refl. reflexivity. Qed.

(** X9.  With an axis of length 1 the result of create_2D_noise is not a
    series of the shape asked for: for (d0, d1) with d0 = 1 or d1 = 1 the
    transposed frequencies of the first axis are broadcast against those of
    the second, and the call returns a square array of side d0 * d1, after
    d0 * d1 random samples. *)
Theorem create_2D_noise_unit_axis (w : world A) (d0 d1 : nat) (beta : arg A) :
  d0 = 1 \/ d1 = 1 -> 0 < d0 -> 0 < d1 ->
  exists out w',
    create_2D_noise (Passed (d0, d1)) beta w = (Ok out, w') /\
    shape out = (d0 * d1, d0 * d1) /\
    rng w' = rng w + d0 * d1.
Proof.
  intros Hone H0 H1. unfold create_2D_noise. cbn [with_default fst snd].
  erewrite bind_lift_ok
    by (apply reshape_ok; rewrite length_repmat, length_frequencies by lia; cbn [fst snd]; lia).
  erewrite bind_lift_ok
    by (apply reshape_ok; rewrite length_repmat, length_frequencies by lia; cbn [fst snd]; lia).
  cbn [transpose mshape]. rewrite !mmap_Matrix.
  set (d := d0 * d1).
  assert (Hs1 : broadcast_shape (d1, d0) (d0, d1) = Some (d, d)).
  { unfold broadcast_shape. cbn [fst snd]. destruct Hone as [-> | ->].
    - rewrite broadcast_dim_1_r, broadcast_dim_1_l. unfold d. do 2 f_equal; lia.
    - rewrite broadcast_dim_1_l, broadcast_dim_1_r. unfold d. do 2 f_equal; lia. }
  assert (Hs2 : broadcast_shape (d, d) (d0, d1) = Some (d, d)).
  { unfold broadcast_shape. cbn [fst snd]. destruct Hone as [-> | ->].
    - replace d with d1 by (unfold d; lia).
      rewrite broadcast_dim_1_r, broadcast_dim_same. reflexivity.
    - replace d with d0 by (unfold d; lia).
      rewrite broadcast_dim_same, broadcast_dim_1_r. reflexivity. }
  rewrite (broadcast2_Matrix _ _ _ _ _ _ _ _ Hs1). erewrite bind_lift_ok by reflexivity.
  erewrite bind_ok by reflexivity.
  rewrite !mmap_Matrix.
  rewrite (broadcast2_Matrix _ _ _ _ _ _ _ _ Hs2). erewrite bind_lift_ok by reflexivity.
  unfold np_fft_ifft2. cbn [mshape mdata fst snd].
  assert (Hd : d <> 0) by (unfold d; nia).
  destruct (Nat.eqb_spec d 0); [contradiction|]. cbn [orb].
  erewrite bind_lift_ok by reflexivity.
  rewrite new_array_run. cbn [mmap mshape mdata heap rng].
  eexists _, _. split; [reflexivity|]. split; reflexivity.
Qed.

(** X10.  create_2D_noise refuses a grid with an axis of length 0 with
    ValueError. *)
Theorem create_2D_noise_zero_axis (w : world A) (d0 d1 : nat) (beta : arg A) :
  d0 = 0 \/ d1 = 0 ->
  fst (create_2D_noise (Passed (d0, d1)) beta w) = Raise ValueError.
Proof.
  intros Hzero. unfold create_2D_noise. cbn [with_default fst snd].
  destruct d0 as [|d0].
  - destruct d1 as [|d1].
    + vm_compute. reflexivity.
    + erewrite bind_raise; [reflexivity|].
      unfold lift, reshape. rewrite length_repmat. cbn [fst snd].
      change (frequencies 0) with [div (of_Z 0) (of_Z (Z.of_nat 0))]. cbn [length].
      destruct (Nat.eqb_spec (1 * (1 * S d1)) (0 * S d1)); [lia | reflexivity].
  - destruct Hzero as [Hz|Hz]; [discriminate|]. subst d1.
    erewrite bind_lift_ok
      by (apply reshape_ok; rewrite length_repmat; cbn [fst snd]; lia).
    erewrite bind_raise; [reflexivity|].
    unfold lift, reshape. rewrite length_repmat. cbn [fst snd].
    change (frequencies 0) with [div (of_Z 0) (of_Z (Z.of_nat 0))]. cbn [length].
    destruct (Nat.eqb_spec (S d0 * (1 * 1)) (S d0 * 0)); [lia | reflexivity].
Qed.
End NoiseMore.

Lemma create_2D_noise_square_grid_witness :
  exists out w',
    create_2D_noise (A := F64.t) (EX := sample_external) Omitted Omitted empty_world = (Ok out, w') /\
    shape out = (56, 56) /\
    heap (A := F64.t) empty_world !! base out = None /\
    preserved empty_world w' /\
    rng w' = rng (A := F64.t) empty_world + 56 * 56.
Proof.
  apply (create_2D_noise_square_grid (A := F64.t) (EX := sample_external) empty_world Omitted Omitted 56).
  - reflexivity.
  - lia.
Defined.

Lemma create_2D_noise_unit_axis_witness :
  exists out w',
    create_2D_noise (A := F64.t) (EX := sample_external) (Passed (1, 5)) Omitted empty_world =
      (Ok out, w') /\
    shape out = (1 * 5, 1 * 5) /\
    rng w' = rng (A := F64.t) empty_world + 1 * 5.
Proof.
  apply (create_2D_noise_unit_axis (A := F64.t) (EX := sample_external) empty_world 1 5 Omitted).
  - left. reflexivity.
  - lia.
  - lia.
Defined.

Lemma create_2D_noise_zero_axis_witness :
  fst (create_2D_noise (A := F64.t) (EX := sample_external) (Passed (0, 5)) Omitted empty_world) =
    Raise ValueError.
Proof.
  apply (create_2D_noise_zero_axis (A := F64.t) (EX := sample_external) empty_world 0 5 Omitted).
  left. reflexivity.
Defined.

(** ** rotate_image, and create_new_dataset on degenerate datasets *)

Section DatasetMore.
Context {A : Type} {SA : Scalar A} {SQ : Sqrt A} {EX : External A}.

Lemma np_random_randint_run (w : world A) (low high : Z) :
  (low < high)%Z ->
  exists k, (low <= k < high)%Z /\
    np_random_randint low high w = (Ok k, World (heap w) (S (rng w))).
Proof.
  intros Hlt. unfold np_random_randint. destruct (Z.ltb_spec low high); [|lia].
  eexists. split; [|reflexivity].
  pose proof (Z.mod_pos_bound (Z.of_nat (random_bits (rng w))) (high - low)). lia.
Qed.

(** X11.  On an image with at least one entry rotate_image returns an
    array of the shape of the image, in a buffer that did not exist before
    the call, holding the rotation of the entries of the image by
    scikit-image, and leaves every existing buffer as it was.  When an
    angle is given it is the angle used, and no random number is drawn;
    without one the angle is a single integer draw of [0, 360).  On an
    image without entries (an axis of length 0) rotate_image raises
    ValueError, from scikit-image, with the store as it was; the angle has
    been drawn by then when none was given. *)
Theorem rotate_image_fresh_copy (w : world A) (image : ndarray) (angle : arg (option Z))
    (vals : list A) :
  holds w image vals ->
  (fst (shape image) = 0 \/ snd (shape image) = 0 ->
   exists w',
     rotate_image image angle w = (Raise ValueError, w') /\
     heap w' = heap w /\
     rng w' = match with_default None angle with
              | Some _ => rng w
              | None => S (rng w)
              end) /\
  (0 < fst (shape image) -> 0 < snd (shape image) ->
   exists a out w',
     rotate_image image angle w = (Ok out, w') /\
     shape out = shape image /\
     heap w !! base out = None /\
     preserved w w' /\
     heap w' !! base out = Some (skimage_rotate (shape image) vals a) /\
     match with_default None angle with
     | Some a0 => a = a0 /\ rng w' = rng w
     | None => (0 <= a < 360)%Z /\ rng w' = S (rng w)
     end).
Proof.
  intros Hh. split.
  - intros Hempty.
    assert (Hrot : forall a, skimage_transform_rotate (Matrix (shape image) vals) a =
                             Raise ValueError).
    { intros a. unfold skimage_transform_rotate. cbn [mshape].
      destruct Hempty as [-> | ->]; [reflexivity | rewrite orb_true_r; reflexivity]. }
    unfold rotate_image. destruct (with_default None angle) as [a0|].
    + erewrite bind_ok by reflexivity.
      erewrite bind_ok by (apply read_view_holds, Hh).
      erewrite bind_raise by (unfold lift; rewrite Hrot; reflexivity).
      eexists. split; [reflexivity|]. split; reflexivity.
    + destruct (np_random_randint_run w 0 360 ltac:(lia)) as (a & Ha & Hrun).
      erewrite bind_ok by exact Hrun.
      assert (Hh' : holds (World (heap w) (S (rng w))) image vals) by exact Hh.
      erewrite bind_ok by (apply read_view_holds, Hh').
      erewrite bind_raise by (unfold lift; rewrite Hrot; reflexivity).
      eexists. split; [reflexivity|]. split; reflexivity.
  - intros Hrows Hcols.
    assert (Hrot : forall a, skimage_transform_rotate (Matrix (shape image) vals) a =
                             Ok (Matrix (shape image) (skimage_rotate (shape image) vals a))).
    { intros a. unfold skimage_transform_rotate. cbn [mshape mdata].
      destruct (Nat.eqb_spec (fst (shape image)) 0); [lia|].
      destruct (Nat.eqb_spec (snd (shape image)) 0); [lia | reflexivity]. }
    unfold rotate_image. destruct (with_default None angle) as [a0|].
    + exists a0. erewrite bind_ok by reflexivity.
      erewrite bind_ok by (apply read_view_holds, Hh).
      erewrite bind_lift_ok by apply Hrot.
      rewrite new_array_run. cbn [mshape mdata].
      eexists _, _. split; [reflexivity|]. split; [reflexivity|].
      split; [apply fresh_lookup|]. split; [apply preserved_alloc|].
      split; [cbn [heap base]; apply lookup_insert_eq | auto].
    + destruct (np_random_randint_run w 0 360 ltac:(lia)) as (a & Ha & Hrun).
      exists a. erewrite bind_ok by exact Hrun.
      assert (Hh' : holds (World (heap w) (S (rng w))) image vals) by exact Hh.
      erewrite bind_ok by (apply read_view_holds, Hh').
      erewrite bind_lift_ok by apply Hrot.
      rewrite new_array_run. cbn [mshape mdata heap rng].
      eexists _, _. split; [reflexivity|]. split; [reflexivity|].
      split; [apply fresh_lookup|]. split.
      * intros l buf Hl. cbn [heap]. rewrite lookup_insert_ne; [exact Hl|].
        intros <-. rewrite fresh_lookup in Hl. discriminate.
      * split; [cbn [heap base]; apply lookup_insert_eq | auto].
Qed.

(** X12.  On a dataset without rows create_new_dataset returns an array of
    shape (0, 4n) in a buffer that did not exist before the call, whatever
    n, the offsets and the rotation arguments are: no existing buffer is
    changed and no random number is drawn. *)
Theorem create_new_dataset_no_rows (w : world A) (dataset : ndarray)
    (offsets : arg (list (Z * Z))) (rotate : arg bool) (degree : arg (option Z)) :
  fst (shape dataset) = 0 ->
  exists out w',
    create_new_dataset dataset offsets rotate degree w = (Ok out, w') /\
    shape out = (0, snd (shape dataset) * 4) /\
    heap w !! base out = None /\
    preserved w w' /\ rng w' = rng w.
Proof.
  intros Hm. unfold create_new_dataset. destruct (shape dataset) as [m n].
  cbn [fst snd] in *. subst m. cbv zeta.
  erewrite bind_ok by (unfold np_zeros; apply new_array_run).
  cbn [seq for_each]. erewrite bind_ok by reflexivity.
  eexists _, _. split; [reflexivity|]. split; [reflexivity|].
  split; [apply fresh_lookup|]. split; [apply preserved_alloc | reflexivity].
Qed.

(** X13.  On a dataset with at least one row whose length n is not a
    perfect square, create_new_dataset raises ValueError: the first row
    cannot be reshaped to (isqrt n, isqrt n). *)
Theorem create_new_dataset_not_square (w : world A) (dataset : ndarray)
    (offsets : arg (list (Z * Z))) (rotate : arg bool) (degree : arg (option Z)) :
  0 < fst (shape dataset) ->
  Nat.sqrt (snd (shape dataset)) * Nat.sqrt (snd (shape dataset)) <> snd (shape dataset) ->
  fst (create_new_dataset dataset offsets rotate degree w) = Raise ValueError.
Proof.
  intros Hm Hn. unfold create_new_dataset. destruct (shape dataset) as [m n] eqn:Hs.
  cbn [fst snd] in *. cbv zeta.
  erewrite bind_ok by (unfold np_zeros; apply new_array_run).
  destruct m as [|m]; [lia|]. cbn [seq for_each].
  erewrite bind_raise; [reflexivity|].
  erewrite bind_raise; [reflexivity|].
  erewrite bind_raise; [reflexivity|].
  unfold reshape_row. rewrite Hs. cbn [fst snd].
  destruct (Nat.eqb_spec n (Nat.sqrt n * Nat.sqrt n)); [lia | reflexivity].
Qed.
End DatasetMore.

Lemma rotate_image_fresh_copy_witness :
  exists a out w',
    rotate_image (A := F64.t) (EX := sample_external) example_image (Passed (Some 90%Z)) example_world =
      (Ok out, w') /\
    shape out = shape example_image /\
    heap example_world !! base out = None /\
    preserved example_world w' /\
    heap w' !! base out =
      Some (skimage_rotate (External := sample_external) (shape example_image)
              (mdata image_3x3) a) /\
    (a = 90%Z /\ rng w' = rng example_world).
Proof.
  destruct (rotate_image_fresh_copy (A := F64.t) (EX := sample_external) example_world
              example_image (Passed (Some 90%Z)) (mdata image_3x3)) as [_ Hreturns].
  - exists (mdata image_3x3). split; [reflexivity|]. split; [simpl; lia | reflexivity].
  - apply Hreturns; simpl; lia.
Defined.

Lemma create_new_dataset_no_rows_witness :
  exists out w',
    create_new_dataset (A := F64.t) (EX := sample_external) (NdArray 1 0 (0, 4))
      Omitted Omitted Omitted dataset_1x4 = (Ok out, w') /\
    shape out = (0, 4 * 4) /\
    heap dataset_1x4 !! base out = None /\
    preserved dataset_1x4 w' /\ rng w' = rng dataset_1x4.
Proof.
  apply (create_new_dataset_no_rows (A := F64.t) (EX := sample_external) dataset_1x4
           (NdArray 1 0 (0, 4)) Omitted Omitted Omitted).
  reflexivity.
Defined.

Lemma create_new_dataset_not_square_witness :
  fst (create_new_dataset (A := F64.t) (EX := sample_external) (NdArray 1 0 (1, 3))
         Omitted Omitted Omitted dataset_1x4) = Raise ValueError.
Proof.
  apply (create_new_dataset_not_square (A := F64.t) (EX := sample_external) dataset_1x4
           (NdArray 1 0 (1, 3)) Omitted Omitted Omitted).
  - simpl. lia.
  - simpl. lia.
Defined.

(** ** create_new_dataset and the arrays of its caller *)

Section DatasetFrame.
Context {A : Type} {SA : Scalar A} {SQ : Sqrt A} {EX : External A}.

Lemma bind_post {X Y} (P : world A -> Prop) (m : M A X) (k : X -> M A Y) w :
  P (snd (m w)) ->
  (forall x w1, m w = (Ok x, w1) -> P (snd (k x w1))) ->
  P (snd (bind m k w)).
Proof.
  intros Hm Hk. unfold bind. destruct (m w) as [[x|e] w1] eqn:Hmw; simpl in *; auto.
Qed.

Lemma for_each_post {X} (P : world A -> Prop) (l : list X) (body : X -> M A unit) w :
  P w -> (forall x w1, P w1 -> P (snd (body x w1))) -> P (snd (for_each l body w)).
Proof.
  intros Hw Hbody. revert w Hw; induction l as [|x l IH]; intros w Hw; simpl; [exact Hw|].
  apply bind_post; [apply Hbody, Hw|]. intros u w1 Hrun. apply IH.
  pose proof (Hbody x w Hw) as Hp. rewrite Hrun in Hp. exact Hp.
Qed.

Lemma preserved_absent (w w' : world A) l :
  preserved w w' -> heap w' !! l = None -> heap w !! l = None.
Proof.
  intros Hp Hnone. destruct (heap w !! l) as [buf|] eqn:Hl; [|reflexivity].
  rewrite (Hp l buf Hl) in Hnone. discriminate.
Qed.

Lemma touches_absent (w0 w w' : world A) l0 sel :
  heap w0 !! l0 = None -> preserved w0 w -> touches_only l0 sel w w' -> preserved w0 w'.
Proof.
  intros Hnone Hp [Hother _] l buf Hl. apply Hother; [|apply Hp, Hl].
  intros ->. rewrite Hnone in Hl. discriminate.
Qed.

Lemma new_array_preserved (m : matrix A) (w : world A) : preserved w (snd (new_array m w)).
Proof. rewrite new_array_run. apply preserved_alloc. Qed.

Lemma np_random_randint_heap (w : world A) low high :
  heap (snd (np_random_randint low high w)) = heap w.
Proof. unfold np_random_randint. destruct (low <? high)%Z; reflexivity. Qed.

Lemma preserved_same_heap (w w' : world A) : heap w' = heap w -> preserved w w'.
Proof. intros He l buf Hl. rewrite He. exact Hl. Qed.

Lemma rotate_image_preserved (image : ndarray) angle (w : world A) :
  preserved w (snd (rotate_image image angle w)).
Proof.
  unfold rotate_image.
  apply (bind_post (preserved w)).
  - destruct (with_default None angle);
      [apply preserved_refl | apply preserved_same_heap, np_random_randint_heap].
  - intros a w1 Ha.
    assert (P1 : preserved w w1).
    { destruct (with_default None angle).
      - injection Ha as _ <-. apply preserved_refl.
      - pose proof (np_random_randint_heap w 0 360) as Hh. rewrite Ha in Hh.
        apply preserved_same_heap, Hh. }
    apply (bind_post (preserved w)).
    + rewrite read_view_world. exact P1.
    + intros img w2 Himg. apply read_view_inv in Himg as (-> & _).
      apply (bind_post (preserved w)); [exact P1|].
      intros rotated w3 [= _ <-].
      eapply preserved_trans; [exact P1 | apply new_array_preserved].
Qed.

Lemma call_rotate_image_preserved (image : ndarray) kwargs (w : world A) :
  preserved w (snd (call_rotate_image image kwargs w)).
Proof.
  unfold call_rotate_image. apply (bind_post (preserved w)); [apply preserved_refl|].
  intros bound w1 [= _ <-]. apply rotate_image_preserved.
Qed.

Lemma create_2D_noise_preserved dim_array beta (w : world A) :
  preserved w (snd (create_2D_noise dim_array beta w)).
Proof.
  unfold create_2D_noise. cbv zeta.
  apply (bind_post (preserved w)); [apply preserved_refl | intros u w1 [= _ <-]].
  apply (bind_post (preserved w)); [apply preserved_refl | intros v w2 [= _ <-]].
  apply (bind_post (preserved w)); [apply preserved_refl | intros f2 w3 [= _ <-]].
  apply (bind_post (preserved w));
    [apply preserved_same_heap; reflexivity | intros phi w4 [= _ <-]].
  apply (bind_post (preserved w));
    [apply preserved_same_heap; reflexivity | intros sp w5 [= _ <-]].
  apply (bind_post (preserved w));
    [apply preserved_same_heap; reflexivity | intros xx w6 [= _ <-]].
  eapply preserved_trans; [|apply new_array_preserved].
  apply preserved_same_heap. reflexivity.
Qed.

Lemma create_2D_noise_fresh dim_array beta (w w' : world A) out :
  create_2D_noise dim_array beta w = (Ok out, w') -> heap w !! base out = None.
Proof.
  unfold create_2D_noise. cbv zeta. intros Hrun.
  assert (Hf : fst (create_2D_noise dim_array beta w) = Ok out)
    by (unfold create_2D_noise; cbv zeta; rewrite Hrun; reflexivity).
  clear Hrun. unfold create_2D_noise in Hf. cbv zeta in Hf.
  apply bind_ok_inv in Hf as (u & w1 & [= _ <-] & Hf).
  apply bind_ok_inv in Hf as (v & w2 & [= _ <-] & Hf).
  apply bind_ok_inv in Hf as (f2 & w3 & [= _ <-] & Hf).
  apply bind_ok_inv in Hf as (phi & w4 & [= _ <-] & Hf).
  apply bind_ok_inv in Hf as (sp & w5 & [= _ <-] & Hf).
  apply bind_ok_inv in Hf as (xx & w6 & [= _ <-] & Hf).
  rewrite new_array_run in Hf. injection Hf as <-. cbn [base].
  exact (fresh_lookup (World (heap w) (rng w + fst (with_default (56, 56) dim_array)
                                               * snd (with_default (56, 56) dim_array)))).
Qed.

Lemma bind_post_ok {X Y} (P : world A -> Prop) (m : M A X) (k : X -> M A Y) w :
  P (snd (m w)) ->
  (forall x w1, m w = (Ok x, w1) -> P w1 -> P (snd (k x w1))) ->
  P (snd (bind m k w)).
Proof.
  intros Hm Hk. apply bind_post; [exact Hm|]. intros x w1 Hrun. apply Hk; [exact Hrun|].
  rewrite Hrun in Hm. exact Hm.
Qed.

Lemma reshape_row_world (dataset : ndarray) i s (w : world A) :
  snd (reshape_row dataset i s w) = w.
Proof. unfold reshape_row. destruct (_ =? _); reflexivity. Qed.

Lemma scale_2D_fresh (w w' : world A) data sr out :
  scale_2D data sr w = (Ok out, w') -> heap w !! base out = None.
Proof.
  destruct (holds_or_not w data) as [[vals Hh]|Hno].
  - rewrite (scale_2D_run w data sr vals Hh). cbv zeta.
    destruct (scale_values _ _ _); [|discriminate].
    intros [= <- _]. apply fresh_lookup.
  - rewrite (scale_2D_invalid w data sr Hno). discriminate.
Qed.

Lemma flatten_preserved (a : ndarray) (w : world A) : preserved w (snd (flatten a w)).
Proof.
  destruct (holds_or_not w a) as [[vals Hh]|Hno].
  - rewrite (flatten_run w a vals Hh). apply preserved_alloc.
  - unfold flatten. erewrite bind_raise by (apply read_view_fails, Hno). apply preserved_refl.
Qed.

Lemma setitem_row_touches (a : ndarray) i flat (w : world A) :
  touches_only (base a)
    (fun k => (offset a <=? k) &&
              in_window (Window i 1 0 (snd (shape a))) (snd (shape a)) (k - offset a))
    w (snd (setitem_row a i flat w)).
Proof.
  unfold setitem_row, bind, load. destruct (heap w !! flat); [|apply touches_refl].
  apply write_window_touches.
Qed.

(** X14.  create_new_dataset never writes to an array that existed before
    the call: whatever its arguments, and whether it returns or raises,
    every buffer of the store holds afterwards what it held before.  When
    it returns, the result is an array of shape (m, 4n) in a buffer that
    did not exist before the call. *)
Theorem create_new_dataset_preserves_store (w0 : world A) (dataset : ndarray)
    (offsets : arg (list (Z * Z))) (rotate : arg bool) (degree : arg (option Z)) :
  preserved w0 (snd (create_new_dataset dataset offsets rotate degree w0)) /\
  (forall out w', create_new_dataset dataset offsets rotate degree w0 = (Ok out, w') ->
     heap w0 !! base out = None /\
     shape out = (fst (shape dataset), snd (shape dataset) * 4)).
Proof.
  unfold create_new_dataset. destruct (shape dataset) as [m n]. cbv zeta. cbn [fst snd].
  split.
  - apply bind_post_ok; [apply new_array_preserved|].
    intros nd w1 Hz P1. unfold np_zeros in Hz. rewrite new_array_run in Hz.
    assert (Hnd : heap w0 !! base nd = None).
    { injection Hz as <- _. apply fresh_lookup. }
    clear Hz.
    apply bind_post_ok; [|intros u w2 _ P2; exact P2].
    apply for_each_post; [exact P1|]. clear w1 P1. intros i w Pw.
    apply bind_post_ok; [rewrite reshape_row_world; exact Pw|].
    intros image0 w2 _ P2.
    apply bind_post_ok.
    { destruct (with_default false rotate); [|exact P2].
      eapply preserved_trans; [exact P2 | apply call_rotate_image_preserved]. }
    intros image w3 _ P3.
    apply bind_post_ok;
      [eapply preserved_trans; [exact P3 | apply create_2D_noise_preserved]|].
    intros noise w4 _ P4.
    apply bind_post_ok;
      [eapply preserved_trans; [exact P4 | apply scale_2D_preserved]|].
    intros noise_bg w5 Hscale P5.
    assert (Hbg : heap w0 !! base noise_bg = None).
    { apply (preserved_absent w0 w4 _ P4). apply (scale_2D_fresh _ _ _ _ _ Hscale). }
    apply bind_post_ok.
    { eapply preserved_trans; [exact P5|]. apply preserved_same_heap, np_random_randint_heap. }
    intros rand_offset w6 _ P6.
    apply bind_post_ok; [exact P6|]. intros offset w7 [= _ <-] _.
    apply bind_post_ok;
      [eapply (touches_absent w0 w6);
         [exact Hbg | exact P6 | apply create_composition_touches]|].
    intros result w8 _ P8.
    apply bind_post_ok;
      [eapply preserved_trans; [exact P8 | apply flatten_preserved]|].
    intros flat w9 _ P9.
    eapply (touches_absent w0 w9); [exact Hnd | exact P9 | apply setitem_row_touches].
  - intros out w' Hrun. apply (f_equal fst) in Hrun. cbn [fst] in Hrun.
    apply bind_ok_inv in Hrun as (nd & w1 & Hz & Hrun).
    unfold np_zeros in Hz. rewrite new_array_run in Hz. injection Hz as <- _.
    apply bind_ok_inv in Hrun as (u & w2 & _ & Hret).
    injection Hret as <-. cbn [base shape mshape]. split; [apply fresh_lookup | reflexivity].
Qed.
End DatasetFrame.

(** ** create_new_dataset on rows of 28 x 28 images *)

Section DatasetRuns.
Context {A : Type} {SA : Scalar A} {SQ : Sqrt A} {EX : External A}.

Lemma getitem_ok {X} (l : list X) (k : Z) :
  (0 <= k < Z.of_nat (length l))%Z -> exists x, getitem l k = Ok x /\ In x l.
Proof.
  intros Hk. unfold getitem.
  assert (Hneg : (k <? 0)%Z = false) by (apply Z.ltb_ge; lia).
  rewrite !Hneg.
  destruct (l !! Z.to_nat k) as [x|] eqn:Hx.
  - exists x. split; [reflexivity|]. apply list_elem_of_In. eapply list_elem_of_lookup_2, Hx.
  - apply lookup_ge_None in Hx. lia.
Qed.

Lemma for_each_seq_ok (J : nat -> world A -> Prop) (body : nat -> M A unit) n :
  forall a w,
  (forall i w1, a <= i < a + n -> J i w1 ->
     exists w2, body i w1 = (Ok tt, w2) /\ J (S i) w2) ->
  J a w ->
  exists w', for_each (seq a n) body w = (Ok tt, w') /\ J (a + n) w'.
Proof.
  induction n as [|n IH]; intros a w Hbody Hw.
  - exists w. rewrite Nat.add_0_r. split; [reflexivity | exact Hw].
  - cbn [seq for_each].
    destruct (Hbody a w ltac:(lia) Hw) as (w2 & Hrun & H2).
    erewrite bind_ok by exact Hrun.
    destruct (IH (S a) w2) as (w' & Hrun' & H'); [|exact H2|].
    + intros i w1 Hi. apply Hbody. lia.
    + exists w'. split; [exact Hrun'|]. replace (a + S n) with (S a + n) by lia. exact H'.
Qed.

(** The noise of a square grid, with the number of entries the inverse
    transform returns when it keeps the number of its points. *)
Lemma create_2D_noise_square_entries (w : world A) (d : nat) (beta : arg A) :
  (forall s (l : list (A * A)), length (fft_ifft2 s l) = length l) ->
  0 < d ->
  exists vals,
    length vals = d * d /\
    create_2D_noise (Passed (d, d)) beta w =
      (Ok (NdArray (fresh (dom (heap w))) 0 (d, d)),
       World (<[fresh (dom (heap w)) := vals]> (heap w)) (rng w + d * d)).
Proof.
  intros Hfft Hd. unfold create_2D_noise. cbn [with_default fst snd].
  erewrite bind_lift_ok
    by (apply reshape_ok; rewrite length_repmat, length_frequencies by lia; cbn [fst snd]; lia).
  erewrite bind_lift_ok
    by (apply reshape_ok; rewrite length_repmat, length_frequencies by lia; cbn [fst snd]; lia).
  cbn [transpose mshape]. rewrite !mmap_Matrix.
  rewrite broadcast2_same. erewrite bind_lift_ok by reflexivity.
  erewrite bind_ok by reflexivity.
  rewrite !mmap_Matrix.
  rewrite broadcast2_same. erewrite bind_lift_ok by reflexivity.
  unfold np_fft_ifft2. cbn [mshape mdata fst snd].
  destruct (Nat.eqb_spec d 0); [lia|]. cbn [orb].
  erewrite bind_lift_ok by reflexivity.
  rewrite new_array_run. cbn [mmap mshape mdata heap rng].
  eexists. split; [|reflexivity].
  rewrite length_map, Hfft, length_tabulate. reflexivity.
Qed.



Lemma bind_raise_fst {X Y} (c : M A X) (k : X -> M A Y) (w : world A) e :
  fst (c w) = Raise e -> fst (bind c k w) = Raise e.
Proof. unfold bind. destruct (c w) as [[x|e'] w1]; simpl; intros Hc; [discriminate | injection Hc as ->; reflexivity]. Qed.

(** X15.  An empty list of offsets is not refused when the call starts.
    With at least one row and no rotation create_new_dataset raises
    ValueError: from the reshape of the first row, or, when the row length
    is a perfect square, from np.random.randint(0, 0) once the background
    of the first row has been generated and scaled.  The inverse transform
    is taken to return as many points as it is given. *)
Theorem create_new_dataset_no_offsets (w : world A) (dataset : ndarray)
    (rotate : arg bool) (degree : arg (option Z)) :
  (forall s (l : list (A * A)), length (fft_ifft2 s l) = length l) ->
  0 < fst (shape dataset) ->
  with_default false rotate = false ->
  fst (create_new_dataset dataset (Passed []) rotate degree w) = Raise ValueError.
Proof.
  intros Hfft Hm Hrot.
  unfold create_new_dataset, reshape_row. rewrite Hrot.
  destruct (shape dataset) as [m n]. cbn [fst snd with_default length] in *. cbv zeta.
  erewrite bind_ok by (unfold np_zeros; apply new_array_run).
  destruct m as [|m]; [lia|]. cbn [seq for_each].
  destruct (n =? Nat.sqrt n * Nat.sqrt n).
  - apply bind_raise_fst.
    apply bind_raise_fst.
    erewrite bind_ok by reflexivity. erewrite bind_ok by reflexivity.
    match goal with
    | |- fst (bind (create_2D_noise Omitted Omitted) _ ?w1) = _ =>
        destruct (create_2D_noise_square_entries w1 56 Omitted Hfft ltac:(lia))
          as (noise & Hlnoise & Hnoise)
    end.
    erewrite bind_ok by exact Hnoise. clear Hnoise.
    destruct (scale_values_nonempty noise (of_Z 0) (of_Z 255)) as (bgv & Hscale & _).
    { intros ->. discriminate Hlnoise. }
    erewrite bind_ok.
    2:{ rewrite (scale_2D_run _ _ Omitted noise) by (apply holds_fresh; exact Hlnoise).
        cbv zeta. cbn [with_default fst snd]. rewrite Hscale. reflexivity. }
    apply bind_raise_fst. reflexivity.
  - apply bind_raise_fst.
    apply bind_raise_fst.
    apply bind_raise_fst. reflexivity.
Qed.

Lemma dataset_row {T} (buf : list T) (o i n m : nat) :
  i < m ->
  take n (drop (o + i * n) buf) = take n (drop (i * n) (take (m * n) (drop o buf))).
Proof.
  intros Hi. replace (m * n) with (i * n + (m * n - i * n)) by nia.
  rewrite <- take_drop_commute, take_take, drop_drop.
  f_equal. nia.
Qed.

Lemma setitem_row_lookup (buf frame : list A) (C i i' c : nat) :
  length frame = C -> c < C ->
  imap (fun k old =>
          if (0 <=? k) && in_window (Window i 1 0 C) C (k - 0)
          then bget (of_Z 0) (Matrix (1, length frame) frame)
                 ((k - 0) / C - i) ((k - 0) mod C - 0)
          else old) buf !! (i' * C + c) =
  if i' =? i then (fun _ => nth c frame (of_Z 0)) <$> buf !! (i' * C + c)
  else buf !! (i' * C + c).
Proof.
  intros Hlen Hc. rewrite list_lookup_imap.
  destruct (index_split C (i' * C + c) i' c Hc eq_refl) as [Hd Hm].
  rewrite Nat.sub_0_r. unfold in_window. rewrite Hd, Hm. cbn [w_r0 w_nr w_c0 w_nc].
  destruct (buf !! (i' * C + c)) as [old|];
    [|destruct (i' =? i); reflexivity].
  cbn [fmap option_fmap option_map]. cbn [Nat.leb andb].
  destruct (Nat.eqb_spec i' i) as [->|Hne].
  - destruct (Nat.leb_spec i i); [|lia]. destruct (Nat.ltb_spec i (i + 1)); [|lia].
    destruct (Nat.ltb_spec c (0 + C)); [|lia]. cbn [andb].
    rewrite Nat.sub_diag, Nat.sub_0_r. f_equal. unfold bget. cbn [mshape mdata].
    cbn [Nat.eqb]. destruct (Nat.eqb_spec (length frame) 1) as [Hone|Hone].
    + f_equal. lia.
    + reflexivity.
  - destruct (Nat.leb_spec i i'), (Nat.ltb_spec i' (i + 1)); cbn [andb]; try reflexivity.
    lia.
Qed.

Lemma composed_frame_lookup (w3 w4 : world A) (bg : ndarray) (img bgv fade : list A)
    (n y0 x0 : nat) (c : Z * Z) (r : A) (a b : nat) :
  holds w3 bg bgv -> offset bg = 0 ->
  y0 + n <= fst (shape bg) -> x0 + n <= snd (shape bg) ->
  (forall i j, i < n -> j < n ->
     entry w4 bg (y0 + i) (x0 + j) =
       Some (composed_entry img bgv fade n (snd (shape bg)) y0 x0 c r i j)) ->
  (forall i j, i < fst (shape bg) -> j < snd (shape bg) ->
     ~ (y0 <= i < y0 + n /\ x0 <= j < x0 + n) -> entry w4 bg i j = entry w3 bg i j) ->
  a < fst (shape bg) -> b < snd (shape bg) ->
  entry w4 bg a b =
    Some (composed_frame_entry img bgv fade n (snd (shape bg)) y0 x0 c r a b).
Proof.
  intros Hbg Hoff Hy Hx Hin Hout Ha Hb. unfold composed_frame_entry.
  destruct (Nat.leb_spec y0 a), (Nat.ltb_spec a (y0 + n)),
    (Nat.leb_spec x0 b), (Nat.ltb_spec b (x0 + n)); cbn [andb].
  1:{ rewrite <- (Hin (a - y0) (b - x0)) by lia. f_equal; lia. }
  all: rewrite Hout by (try assumption; lia).
  all: destruct Hbg as (buf & Hbuf & Hle & ->); unfold entry; rewrite Hbuf.
  all: rewrite Hoff in Hle |- *.
  all: cbn [Nat.add]; rewrite drop_0.
  all: rewrite nth_lookup, lookup_take_lt by nia.
  all: destruct (lookup_lt_is_Some_2 buf (a * snd (shape bg) + b)) as [v Hv]; [nia|].
  all: rewrite Hv; reflexivity.
Qed.

Lemma create_new_dataset_run_784 (w0 : world A) (dataset : ndarray) (m : nat)
    (offsets : arg (list (Z * Z))) (rotate : arg bool) (degree : arg (option Z))
    (vals : list A) :
  (forall s (l : list (A * A)), length (fft_ifft2 s l) = length l) ->
  shape dataset = (m, 784) ->
  holds w0 dataset vals ->
  with_default [(0, 0)%Z] offsets <> [] ->
  (forall o, In o (with_default [(0, 0)%Z] offsets) ->
     (0 <= fst o <= 28)%Z /\ (0 <= snd o <= 28)%Z) ->
  with_default false rotate = false ->
  exists w' buf,
    create_new_dataset dataset offsets rotate degree w0 =
      (Ok (NdArray (fresh (dom (heap w0))) 0 (m, 3136)), w') /\
    heap w' !! fresh (dom (heap w0)) = Some buf /\
    length buf = m * 3136 /\
    preserved w0 w' /\
    rng w' = rng w0 + m * 3137 /\
    forall i, i < m -> composed_row (with_default [(0, 0)%Z] offsets) vals i buf.
Proof.
  intros Hfft Hshape Hds Hne Hoffs Hrot.
  unfold create_new_dataset. rewrite Hshape, Hrot. cbv zeta.
  set (offs := with_default [(0, 0)%Z] offsets) in *.
  change (Nat.sqrt 784) with 28. change (784 * 4) with 3136.
  erewrite bind_ok by (unfold np_zeros; apply new_array_run).
  cbn [mshape mdata fst snd].
  set (ndl := fresh (dom (heap w0))).
  set (nd := NdArray ndl 0 (m, 3136)).
  pose (J := fun (i : nat) (w : world A) =>
               preserved w0 w /\ rng w = rng w0 + i * 3137 /\
               exists buf, heap w !! ndl = Some buf /\ length buf = m * 3136 /\
                 forall i', i' < i -> composed_row offs vals i' buf).
  match goal with
  | |- context [bind (for_each (seq 0 m) ?b) _ ?w] =>
      destruct (for_each_seq_ok J b m 0 w) as (w' & Hloop & HJ)
  end.
  - intros i w Hi (Pw & Rw & bufn & Hbufn & Hlenn & Hrows).
    (* the image of row i *)
    unfold reshape_row. rewrite Hshape. cbn [fst snd].
    change (784 =? 28 * 28) with true. cbv iota.
    erewrite bind_ok by reflexivity. erewrite bind_ok by reflexivity.
    set (image := NdArray (base dataset) (offset dataset + i * 784) (28, 28)).
    assert (Himg : holds w image (take 784 (drop (i * 784) vals))).
    { destruct (holds_preserved _ _ _ _ Pw Hds) as (buf & Hbuf & Hle & Hvals).
      rewrite Hshape in Hle, Hvals. cbn [fst snd] in Hle, Hvals.
      exists buf. unfold image. cbn [base offset shape fst snd].
      split; [exact Hbuf|]. split; [lia|].
      rewrite Hvals. change (28 * 28) with 784. symmetry. apply dataset_row. lia. }
    set (img := take 784 (drop (i * 784) vals)) in *.
    (* the background *)
    destruct (create_2D_noise_square_entries w 56 Omitted Hfft ltac:(lia))
      as (noise & Hlnoise & Hnoise).
    erewrite bind_ok by exact Hnoise. clear Hnoise.
    set (l1 := fresh (dom (heap w))).
    set (w1 := World (<[l1 := noise]> (heap w)) (rng w + 56 * 56)).
    assert (P1 : preserved w w1) by apply preserved_alloc.
    destruct (scale_values_nonempty noise (of_Z 0) (of_Z 255)) as (bgv & Hscale & Hlbg).
    { intros ->. discriminate Hlnoise. }
    assert (Hrun2 : scale_2D (NdArray l1 0 (56, 56)) Omitted w1
                    = (Ok (NdArray (fresh (dom (heap w1))) 0 (56, 56)),
                       World (<[fresh (dom (heap w1)) := bgv]> (heap w1)) (rng w1))).
    { rewrite (scale_2D_run w1 _ Omitted noise) by (apply holds_fresh; exact Hlnoise).
      cbv zeta. cbn [with_default fst snd]. rewrite Hscale. reflexivity. }
    erewrite bind_ok by exact Hrun2. clear Hrun2.
    set (l2 := fresh (dom (heap w1))).
    set (bg := NdArray l2 0 (56, 56)).
    set (w2 := World (<[l2 := bgv]> (heap w1)) (rng w1)).
    assert (Hl2 : heap w !! l2 = None).
    { apply (preserved_absent w w1 l2 P1). apply fresh_lookup. }
    assert (P2 : preserved w w2).
    { eapply preserved_trans; [exact P1 | apply preserved_alloc]. }
    (* the offset *)
    destruct (np_random_randint_run w2 0 (Z.of_nat (length offs))) as (k & Hk & Hrand).
    { destruct offs; [congruence | cbn [length]; lia]. }
    erewrite bind_ok by exact Hrand. clear Hrand.
    destruct (getitem_ok offs k Hk) as (o & Hget & Hin).
    erewrite bind_lift_ok by exact Hget.
    destruct (Hoffs o Hin) as [Hox Hoy].
    set (w3 := World (heap w2) (S (rng w2))).
    assert (P3 : preserved w w3) by exact P2.
    assert (Hbg3 : holds w3 bg bgv).
    { apply holds_fresh. cbn [fst snd]. lia. }
    (* the composition *)
    assert (Hwin : slice2 (shape bg) (snd o) (snd o + Z.of_nat 28) (fst o)
                     (fst o + Z.of_nat 28)
                   = Window (Z.to_nat (snd o)) 28 (Z.to_nat (fst o)) 28).
    { apply slice2_inside; cbn [shape bg fst snd]; lia. }
    destruct (create_composition_run w3 image bg (Passed (fst o)) (Passed (snd o))
                (Passed None) (Passed None) 28 img bgv
                (Z.to_nat (snd o)) (Z.to_nat (fst o)))
      as (fade0 & buf & l3 & l4 & patch & _ & Hbuf & _ & _ & _ & _ & Hcomp);
      [reflexivity | lia | exact (holds_preserved _ _ _ _ P3 Himg) | exact Hbg3
      | exact Hwin |].
    destruct (create_composition_window w3 image bg (Passed (fst o)) (Passed (snd o))
                (Passed None) (Passed None) 28 img bgv
                (Z.to_nat (snd o)) (Z.to_nat (fst o)))
      as (w4' & fade & Hcomp' & Hfade & Hinside & Houtside & _);
      [reflexivity | lia | exact (holds_preserved _ _ _ _ P3 Himg) | exact Hbg3
      | exact Hwin |].
    cbn [with_default] in Hfade, Hinside, Houtside.
    rewrite Hcomp in Hcomp'. injection Hcomp' as <-.
    pose proof (create_composition_touches w3 image bg (Passed (fst o)) (Passed (snd o))
                  (Passed None) (Passed None)) as [Hother _].
    rewrite Hcomp in Hother. cbn [snd] in Hother.
    erewrite bind_ok by exact Hcomp.
    match type of Hcomp with _ = (_, ?w) => set (w4 := w) in * end.
    assert (P4 : preserved w w4).
    { intros l b Hl. apply Hother; [|apply P3, Hl].
      intros ->. cbn [base bg] in Hl. rewrite Hl2 in Hl. discriminate. }
    assert (Hbuf' : buf = bgv).
    { cbn [heap w3 w2 base bg] in Hbuf. rewrite lookup_insert_eq in Hbuf. congruence. }
    subst buf.
    assert (Hbg4 : exists frame, holds w4 bg frame /\ length frame = 56 * 56 /\
              forall a b, a < 56 -> b < 56 -> frame !! (a * 56 + b) = entry w4 bg a b).
    { eexists. split; [|split].
      - eexists. split; [unfold w4; cbn [heap]; apply lookup_insert_eq|].
        split; [|reflexivity]. rewrite length_imap. cbn [offset shape bg fst snd]. lia.
      - rewrite length_take, length_drop, length_imap. cbn [offset shape bg fst snd]. lia.
      - intros a b Ha Hb. unfold entry, w4. cbn [heap base offset shape bg fst snd].
        rewrite lookup_insert_eq, drop_0, lookup_take_lt by lia. reflexivity. }
    destruct Hbg4 as (frame & Hframe & Hlframe & Hentries).
    assert (Hframe_entry : forall a b, a < 56 -> b < 56 ->
              frame !! (a * 56 + b) =
                Some (composed_frame_entry img bgv fade 28 56
                        (Z.to_nat (snd o)) (Z.to_nat (fst o))
                        (default_center 28 28)
                        (default_radius 28 28 (default_center 28 28)) a b)).
    { intros a b Ha Hb. rewrite (Hentries a b Ha Hb).
      apply (composed_frame_lookup w3 w4 bg img bgv fade 28 (Z.to_nat (snd o))
               (Z.to_nat (fst o))).
      - exact Hbg3.
      - reflexivity.
      - cbn [shape bg fst snd]. lia.
      - cbn [shape bg fst snd]. lia.
      - exact Hinside.
      - exact Houtside.
      - exact Ha.
      - exact Hb. }
    erewrite bind_ok by (apply flatten_run, Hframe).
    set (l5 := fresh (dom (heap w4))).
    set (w5 := World (<[l5 := frame]> (heap w4)) (rng w4)).
    assert (P5 : preserved w w5).
    { eapply preserved_trans; [exact P4 | apply preserved_alloc]. }
    (* the row of the result *)
    unfold setitem_row.
    erewrite bind_ok by (apply load_run; unfold w5; cbn [heap]; apply lookup_insert_eq).
    rewrite (write_window_run w5 nd _ _ bufn);
      [| apply P5, Hbufn
       | cbn [mshape w_nr w_nc nd shape fst snd]; rewrite Hlframe; reflexivity].
    eexists. split; [reflexivity|].
    split; [|split].
    + intros l b Hl. cbn [heap].
      rewrite lookup_insert_ne.
      * apply P5, Pw, Hl.
      * intros <-. cbn [base nd] in Hl. unfold ndl in Hl.
        rewrite fresh_lookup in Hl. discriminate.
    + cbn [rng w5 w4 w3 w2 w1]. lia.
    + eexists. split; [cbn [heap base nd]; apply lookup_insert_eq|].
      split; [rewrite length_imap; exact Hlenn|].
      intros i' Hi'. unfold nd. cbn [offset shape fst snd w_r0 w_c0].
      destruct (Nat.eq_dec i' i) as [->|Hdiff].
      * exists o, bgv, fade. split; [exact Hin|]. split; [lia|]. split; [exact Hfade|].
        intros a b Ha Hb.
        rewrite (setitem_row_lookup bufn frame 3136 i i (a * 56 + b)) by lia.
        rewrite Nat.eqb_refl.
        destruct (lookup_lt_is_Some_2 bufn (i * 3136 + (a * 56 + b))) as [old Hold]; [nia|].
        rewrite Hold. cbn [fmap option_fmap option_map]. f_equal.
        apply nth_lookup_Some. exact (Hframe_entry a b Ha Hb).
      * destruct (Hrows i' ltac:(lia)) as (o' & bgv' & fade' & Ho' & Hl' & Hf' & Hrow').
        exists o', bgv', fade'. split; [exact Ho'|]. split; [exact Hl'|].
        split; [exact Hf'|]. intros a b Ha Hb.
        rewrite (setitem_row_lookup bufn frame 3136 i i' (a * 56 + b)) by lia.
        destruct (Nat.eqb_spec i' i); [contradiction|]. apply Hrow'; assumption.
  - split; [apply preserved_alloc|]. split; [cbn [rng]; lia|].
    eexists. split; [apply lookup_insert_eq|]. split; [apply length_replicate|].
    intros i' Hi'. lia.
  - erewrite bind_ok by exact Hloop.
    destruct HJ as (Hp & Hr & buf & Hbuf & Hlen & Hrows).
    exists w', buf. split; [reflexivity|]. split; [exact Hbuf|]. split; [exact Hlen|].
    split; [exact Hp|]. split; [exact Hr | exact Hrows].
Qed.


(** X16.  On a dataset of m rows of 784 entries (images of 28 x 28), with
    every offset in [0, 28] x [0, 28], at least one offset and no rotation,
    create_new_dataset returns an array of shape (m, 3136) in a buffer that
    did not exist before the call, leaves every existing buffer as it was,
    and consumes 3137 random draws for each row: the 56 x 56 phases of the
    background and the index of the offset.  The inverse transform is taken
    to return as many points as it is given. *)
Theorem create_new_dataset_returns_784 (w0 : world A) (dataset : ndarray) (m : nat)
    (offsets : arg (list (Z * Z))) (rotate : arg bool) (degree : arg (option Z))
    (vals : list A) :
  (forall s (l : list (A * A)), length (fft_ifft2 s l) = length l) ->
  shape dataset = (m, 784) ->
  holds w0 dataset vals ->
  with_default [(0, 0)%Z] offsets <> [] ->
  (forall o, In o (with_default [(0, 0)%Z] offsets) ->
     (0 <= fst o <= 28)%Z /\ (0 <= snd o <= 28)%Z) ->
  with_default false rotate = false ->
  exists out w' rows,
    create_new_dataset dataset offsets rotate degree w0 = (Ok out, w') /\
    shape out = (m, 3136) /\
    heap w0 !! base out = None /\
    holds w' out rows /\
    preserved w0 w' /\
    rng w' = rng w0 + m * 3137.
Proof.
  intros Hfft Hshape Hds Hne Hoffs Hrot.
  destruct (create_new_dataset_run_784 w0 dataset m offsets rotate degree vals
              Hfft Hshape Hds Hne Hoffs Hrot)
    as (w' & buf & Hrun & Hbuf & Hlen & Hp & Hr & _).
  eexists _, w', (take (m * 3136) buf).
  split; [exact Hrun|]. split; [reflexivity|]. split; [apply fresh_lookup|].
  split; [|split; [exact Hp | exact Hr]].
  exists buf. cbn [base offset shape fst snd].
  split; [exact Hbuf|]. split; [lia|]. rewrite drop_0. reflexivity.
Qed.

(** X17.  On a dataset of m rows of 784 entries, with every offset in
    [0, 28] x [0, 28], at least one offset and no rotation, every row of
    the result of create_new_dataset is a composed frame.  For row i there
    are one of the offsets (x, y) and a background of
    56 x 56 entries such that the entry (a, b) of the row, at index
    a * 56 + b, is the patch composed from image i of the dataset inside the
    window [y, y + 28) x [x, x + 28), and the entry of the background
    everywhere else.  The patch is the one that create_composition
    computes with the default center (14, 14) and the computed radius 14.
    The inverse transform is taken to return as many points as it is
    given. *)
Theorem create_new_dataset_rows_784 (w0 : world A) (dataset : ndarray) (m : nat)
    (offsets : arg (list (Z * Z))) (rotate : arg bool) (degree : arg (option Z))
    (vals : list A) :
  (forall s (l : list (A * A)), length (fft_ifft2 s l) = length l) ->
  shape dataset = (m, 784) ->
  holds w0 dataset vals ->
  with_default [(0, 0)%Z] offsets <> [] ->
  (forall o, In o (with_default [(0, 0)%Z] offsets) ->
     (0 <= fst o <= 28)%Z /\ (0 <= snd o <= 28)%Z) ->
  with_default false rotate = false ->
  exists out w' rows,
    create_new_dataset dataset offsets rotate degree w0 = (Ok out, w') /\
    holds w' out rows /\
    length rows = m * 3136 /\
    forall i, i < m -> composed_row (with_default [(0, 0)%Z] offsets) vals i rows.
Proof.
  intros Hfft Hshape Hds Hne Hoffs Hrot.
  destruct (create_new_dataset_run_784 w0 dataset m offsets rotate degree vals
              Hfft Hshape Hds Hne Hoffs Hrot)
    as (w' & buf & Hrun & Hbuf & Hlen & _ & _ & Hrows).
  eexists _, w', buf.
  split; [exact Hrun|]. split; [|split; [exact Hlen | exact Hrows]].
  exists buf. cbn [base offset shape fst snd].
  split; [exact Hbuf|]. split; [lia|]. rewrite drop_0. symmetry. apply take_ge. lia.
Qed.

End DatasetRuns.

Lemma create_new_dataset_no_offsets_witness :
  fst (create_new_dataset (A := F64.t) (EX := sample_external) (NdArray 1 0 (1, 4))
         (Passed []) Omitted Omitted dataset_1x4) = Raise ValueError.
Proof.
  apply (create_new_dataset_no_offsets (A := F64.t) (EX := sample_external) dataset_1x4
           (NdArray 1 0 (1, 4)) Omitted Omitted).
  - intros s l. reflexivity.
  - simpl. lia.
  - reflexivity.
Defined.

Lemma create_new_dataset_returns_784_witness :
  exists out w' rows,
    create_new_dataset (A := F64.t) (EX := sample_external) (NdArray 1 0 (1, 784))
      (Passed [(0, 0)%Z; (28, 28)%Z]) Omitted Omitted dataset_1x784 = (Ok out, w') /\
    shape out = (1, 3136) /\
    heap dataset_1x784 !! base out = None /\
    holds w' out rows /\
    preserved dataset_1x784 w' /\
    rng w' = rng dataset_1x784 + 1 * 3137.
Proof.
  apply (create_new_dataset_returns_784 (A := F64.t) (EX := sample_external) dataset_1x784
           (NdArray 1 0 (1, 784)) 1 (Passed [(0, 0)%Z; (28, 28)%Z]) Omitted Omitted
           (replicate 784 (F64.of_Z 0))).
  - intros s l. reflexivity.
  - reflexivity.
  - exists (replicate 784 (F64.of_Z 0)).
    split; [reflexivity|]. split; [rewrite length_replicate; simpl; lia|].
    rewrite drop_0. symmetry. apply take_ge. rewrite length_replicate. simpl. lia.
  - discriminate.
  - intros o [<-|[<-|[]]]; simpl; lia.
  - reflexivity.
Defined.

Lemma create_new_dataset_rows_784_witness :
  exists out w' rows,
    create_new_dataset (A := F64.t) (EX := sample_external) (NdArray 1 0 (1, 784))
      (Passed [(0, 0)%Z; (28, 28)%Z]) Omitted Omitted dataset_1x784 = (Ok out, w') /\
    holds w' out rows /\
    length rows = 1 * 3136 /\
    forall i, i < 1 ->
      composed_row [(0, 0)%Z; (28, 28)%Z] (replicate 784 (F64.of_Z 0)) i rows.
Proof.
  apply (create_new_dataset_rows_784 (A := F64.t) (EX := sample_external) dataset_1x784
           (NdArray 1 0 (1, 784)) 1 (Passed [(0, 0)%Z; (28, 28)%Z]) Omitted Omitted
           (replicate 784 (F64.of_Z 0))).
  - intros s l. reflexivity.
  - reflexivity.
  - exists (replicate 784 (F64.of_Z 0)).
    split; [reflexivity|]. split; [rewrite length_replicate; simpl; lia|].
    rewrite drop_0. symmetry. apply take_ge. rewrite length_replicate. simpl. lia.
  - discriminate.
  - intros o [<-|[<-|[]]]; simpl; lia.
  - reflexivity.
Defined.
